(** * RentalApp: the server's controllers and authorization middleware

    A shallow embedding of the Express handlers of the rental application
    (authMiddleware.ts, propertyControllers.ts and the application
    controllers) together with the JavaScript built-ins they call, and the
    properties of these handlers stated in the specification. *)

From Stdlib Require Import ZArith NArith QArith Lia Bool List Ascii String.
From stdpp Require Import base decidable option list strings gmap.

(** ** JavaScript values, strings and numbers

    Strings are byte strings, and the operations on them are those of
    JavaScript on ASCII text.  A number is kept as the decimal numeral it
    was read from (sign, digits and power of ten), NaN or an infinity; the
    rounding of a numeral to a double is not modelled. *)
Module JS.

Inductive num : Type :=
| NaN
| Infinity (neg : bool)
| Dec (neg : bool) (mant : N) (exp10 : Z).

Definition zero : num := Dec false 0 0.

Definition num_is_nan (n : num) : bool :=
  match n with NaN => true | _ => false end.

(** The integer a number is, when it is one (what a column of type Int
    accepts). *)
Definition num_int (n : num) : option Z :=
  match n with
  | Dec neg m e =>
      let sign (z : Z) := if neg then (- z)%Z else z in
      if (0 <=? e)%Z then Some (sign (Z.of_N m * 10 ^ e)%Z)
      else if (Z.of_N m mod 10 ^ (- e) =? 0)%Z
           then Some (sign (Z.of_N m / 10 ^ (- e))%Z)
           else None
  | _ => None
  end.

(** A value of a parsed JSON document, [undefined] included. *)
Inductive value : Type :=
| VUndefined
| VNull
| VBool (b : bool)
| VNum (n : num)
| VStr (s : string)
| VObject.

(** ToBoolean. *)
Definition truthy (v : value) : bool :=
  match v with
  | VUndefined | VNull => false
  | VBool b => b
  | VNum NaN => false
  | VNum (Infinity _) => true
  | VNum (Dec _ m _) => negb (m =? 0)%N
  | VStr s => negb (String.eqb s EmptyString)
  | VObject => true
  end.

(** [v === s] for a string literal [s]. *)
Definition is_string (s : string) (v : value) : bool :=
  match v with
  | VStr x => String.eqb x s
  | _ => false
  end.

(** ToIntegerOrInfinity of a finite number: the fraction is dropped. *)
Definition num_trunc (n : num) : option Z :=
  match n with
  | Dec neg m e =>
      let sign (z : Z) := if neg then (- z)%Z else z in
      if (0 <=? e)%Z then Some (sign (Z.of_N m * 10 ^ e)%Z)
      else Some (sign (Z.of_N m / 10 ^ (- e))%Z)
  | _ => None
  end.

(** A query or form parameter: a string, or [undefined] when absent. *)
Definition param_truthy (p : option string) : bool :=
  match p with
  | Some s => negb (String.eqb s EmptyString)
  | None => false
  end.

(** ToString of a parameter that may be [undefined]. *)
Definition param_string (p : option string) : string :=
  match p with
  | Some s => s
  | None => "undefined"
  end.

Definition code (c : ascii) : nat := nat_of_ascii c.

Definition lower_char (c : ascii) : ascii :=
  if (65 <=? code c)%nat && (code c <=? 90)%nat
  then ascii_of_nat (code c + 32) else c.

(** String.prototype.toLowerCase (on the letters A to Z). *)
Fixpoint toLowerCase (s : string) : string :=
  match s with
  | EmptyString => EmptyString
  | String c r => String (lower_char c) (toLowerCase r)
  end.

(** String.prototype.split with a separator of one character. *)
Fixpoint split (sep : ascii) (s : string) : list string :=
  match s with
  | EmptyString => [EmptyString]
  | String c r =>
      if Ascii.eqb c sep then EmptyString :: split sep r
      else match split sep r with
           | h :: t => String c h :: t
           | [] => [String c EmptyString]
           end
  end.

(** White space: TAB, LF, VT, FF, CR and SP. *)
Definition is_space (c : ascii) : bool :=
  ((9 <=? code c)%nat && (code c <=? 13)%nat) || (code c =? 32)%nat.

Fixpoint trimStart (s : string) : string :=
  match s with
  | String c r => if is_space c then trimStart r else s
  | EmptyString => EmptyString
  end.

Fixpoint rev_onto (s acc : string) : string :=
  match s with
  | EmptyString => acc
  | String c r => rev_onto r (String c acc)
  end.

Definition trimEnd (s : string) : string :=
  rev_onto (trimStart (rev_onto s EmptyString)) EmptyString.

Definition trim (s : string) : string := trimEnd (trimStart s).

(** The value of a digit in a radix up to 16, if it is one. *)
Definition digit (radix : N) (c : ascii) : option N :=
  let n := N.of_nat (code c) in
  let v := if (48 <=? n)%N && (n <=? 57)%N then Some (n - 48)%N
           else if (97 <=? n)%N && (n <=? 102)%N then Some (n - 87)%N
           else if (65 <=? n)%N && (n <=? 70)%N then Some (n - 55)%N
           else None in
  match v with
  | Some d => if (d <? radix)%N then Some d else None
  | None => None
  end.

(** The longest run of digits [s] starts with: its value continued from
    [acc], its length, and the rest of [s]. *)
Fixpoint digits (radix : N) (acc : N) (len : nat) (s : string)
  : N * nat * string :=
  match s with
  | String c r =>
      match digit radix c with
      | Some d => digits radix (acc * radix + d)%N (S len) r
      | None => (acc, len, s)
      end
  | EmptyString => (acc, len, s)
  end.

Definition sign (s : string) : bool * string :=
  match s with
  | String "-" r => (true, r)
  | String "+" r => (false, r)
  | _ => (false, s)
  end.

Fixpoint strip_prefix (p s : string) : option string :=
  match p, s with
  | EmptyString, _ => Some s
  | String a p', String b s' =>
      if Ascii.eqb a b then strip_prefix p' s' else None
  | _, EmptyString => None
  end.

(** An exponent part [e], [E] with an optional sign and at least one
    digit: its value and the rest, or 0 and [s] when [s] starts with none. *)
Definition exponent (s : string) : Z * string :=
  match s with
  | String c r =>
      if Ascii.eqb c "e" || Ascii.eqb c "E" then
        let '(neg, r1) := sign r in
        let '(v, len, r2) := digits 10 0 0 r1 in
        match len with
        | O => (0%Z, s)
        | S _ => (if neg then (- Z.of_N v)%Z else Z.of_N v, r2)
        end
      else (0%Z, s)
  | EmptyString => (0%Z, s)
  end.

(** The longest prefix of [s] that is a StrDecimalLiteral, as a number,
    and what follows it; [None] when no prefix is one. *)
Definition decimal_prefix (s : string) : option (num * string) :=
  let '(neg, s1) := sign s in
  match strip_prefix "Infinity" s1 with
  | Some r => Some (Infinity neg, r)
  | None =>
      let '(ip, ilen, s2) := digits 10 0 0 s1 in
      let '(m, flen, s3) :=
        match s2 with
        | String "." r =>
            let '(m, len, r') := digits 10 ip 0 r in
            (* a lone "." is no part of a numeral *)
            match ilen, len with
            | O, O => (ip, O, s2)
            | _, _ => (m, len, r')
            end
        | _ => (ip, O, s2)
        end in
      match ilen, flen with
      | O, O => None
      | _, _ =>
          let '(e, s4) := exponent s3 in
          Some (Dec neg m (e - Z.of_nat flen), s4)
      end
  end.

(** parseFloat(string). *)
Definition parseFloat (s : string) : num :=
  match decimal_prefix (trimStart s) with
  | Some (n, _) => n
  | None => NaN
  end.

(** parseInt(string), the radix left undefined. *)
Definition parseInt (s : string) : num :=
  let '(neg, s1) := sign (trimStart s) in
  let '(radix, s2) :=
    match s1 with
    | String "0" (String x r) =>
        if Ascii.eqb x "x" || Ascii.eqb x "X" then (16%N, r) else (10%N, s1)
    | _ => (10%N, s1)
    end in
  let '(v, len, _) := digits radix 0 0 s2 in
  match len with
  | O => NaN
  | S _ => Dec neg v 0
  end.

(** Number(string): the whole trimmed string must be a numeral; the empty
    string is 0. *)
Definition radix_literal (radix : N) (s : string) : num :=
  match digits radix 0 0 s with
  | (v, S _, EmptyString) => Dec false v 0
  | _ => NaN
  end.

Definition Number (s : string) : num :=
  let t := trim s in
  match t with
  | EmptyString => zero
  | String "0" (String x r) =>
      if Ascii.eqb x "x" || Ascii.eqb x "X" then radix_literal 16 r
      else if Ascii.eqb x "o" || Ascii.eqb x "O" then radix_literal 8 r
      else if Ascii.eqb x "b" || Ascii.eqb x "B" then radix_literal 2 r
      else match decimal_prefix t with
           | Some (n, EmptyString) => n
           | _ => NaN
           end
  | _ =>
      match decimal_prefix t with
      | Some (n, EmptyString) => n
      | _ => NaN
      end
  end.

End JS.

(** ** JavaScript dates

    A [Date] object holds a time value: milliseconds since the epoch, or NaN
    for an invalid date.  The functions below are the abstract operations of
    ECMA-262 (section "Date Objects") under the names the standard gives
    them.  The local time zone adjustment is a constant offset [tza]
    (daylight saving changes are not modelled). *)
Module JSDate.
Local Open Scope Z_scope.

Definition msPerDay : Z := 86400000.
Definition maxTime : Z := 8640000000000000.

Definition Day (t : Z) : Z := t / msPerDay.
Definition TimeWithinDay (t : Z) : Z := t mod msPerDay.

Definition DaysInYear (y : Z) : Z :=
  if negb (y mod 4 =? 0) then 365
  else if negb (y mod 100 =? 0) then 366
  else if negb (y mod 400 =? 0) then 365
  else 366.

Definition DayFromYear (y : Z) : Z :=
  365 * (y - 1970) + (y - 1969) / 4 - (y - 1901) / 100 + (y - 1601) / 400.

(** The year of a day number: "the largest integer y such that
    DayFromYear(y) <= day".  It is computed from the mean length of a
    Gregorian year (146097 days in 400 years) and corrected by one;
    [YearFromDay_spec] below shows that this is the year the standard
    defines. *)
Definition YearFromDay (z : Z) : Z :=
  let y := 1970 + (400 * z) / 146097 in
  if z <? DayFromYear y then y - 1
  else if DayFromYear (y + 1) <=? z then y + 1
  else y.

Definition YearFromTime (t : Z) : Z := YearFromDay (Day t).
Definition InLeapYear (t : Z) : Z :=
  if DaysInYear (YearFromTime t) =? 366 then 1 else 0.
Definition DayWithinYear (t : Z) : Z := Day t - DayFromYear (YearFromTime t).

(** Days of the year before month [m] (0 = January) starts. *)
Definition MonthStart (leap m : Z) : Z :=
  match m with
  | 0 => 0
  | 1 => 31
  | 2 => 59 + leap
  | 3 => 90 + leap
  | 4 => 120 + leap
  | 5 => 151 + leap
  | 6 => 181 + leap
  | 7 => 212 + leap
  | 8 => 243 + leap
  | 9 => 273 + leap
  | 10 => 304 + leap
  | 11 => 334 + leap
  | _ => 365 + leap
  end.

Definition MonthFromTime (t : Z) : Z :=
  let d := DayWithinYear t in
  let l := InLeapYear t in
  if d <? 31 then 0
  else if d <? 59 + l then 1
  else if d <? 90 + l then 2
  else if d <? 120 + l then 3
  else if d <? 151 + l then 4
  else if d <? 181 + l then 5
  else if d <? 212 + l then 6
  else if d <? 243 + l then 7
  else if d <? 273 + l then 8
  else if d <? 304 + l then 9
  else if d <? 334 + l then 10
  else 11.

Definition DateFromTime (t : Z) : Z :=
  DayWithinYear t - MonthStart (InLeapYear t) (MonthFromTime t) + 1.

(** MakeDay(year, month, date): the day number of the first of the month
    [month mod 12] of the year [year + floor(month / 12)], plus [date - 1]. *)
Definition MakeDay (year month date : Z) : Z :=
  let ym := year + month / 12 in
  let mn := month mod 12 in
  let leap := if DaysInYear ym =? 366 then 1 else 0 in
  DayFromYear ym + MonthStart leap mn + date - 1.

Definition MakeDate (day time : Z) : Z := day * msPerDay + time.

(** A Date's time value: [None] stands for NaN (an invalid date). *)
Definition Date : Type := option Z.

Definition TimeClip (t : Z) : Date :=
  if Z.abs t <=? maxTime then Some t else None.

(** [a <= b] on Date objects compares the time values; a comparison with
    NaN is false. *)
Definition date_le (a b : Date) : bool :=
  match a, b with
  | Some x, Some y => x <=? y
  | _, _ => false
  end.

Section LocalTime.
(** Offset of local time from UTC, in milliseconds. *)
Variable tza : Z.

Definition LocalTime (t : Z) : Z := t + tza.
Definition UTC (t : Z) : Z := t - tza.

(** Date.prototype.getMonth: NaN for an invalid date. *)
Definition getMonth (d : Date) : option Z :=
  match d with
  | Some t => Some (MonthFromTime (LocalTime t))
  | None => None
  end.

(** The time value [setMonth(m)] computes before it is clipped. *)
Definition withMonth (t m : Z) : Z :=
  let lt := LocalTime t in
  UTC (MakeDate (MakeDay (YearFromTime lt) m (DateFromTime lt))
                (TimeWithinDay lt)).

(** Date.prototype.setMonth(month), the new time value of the object. *)
Definition setMonth (d : Date) (m : option Z) : Date :=
  match d, m with
  | Some t, Some m => TimeClip (withMonth t m)
  | _, _ => None
  end.

(** Date.prototype.getFullYear, for a valid date. *)
Definition getFullYear (t : Z) : Z := YearFromTime (LocalTime t).

(** Date.prototype.setFullYear(year): the same month, day and time of day
    in [year]; it returns the new time value. *)
Definition setFullYear (t year : Z) : Date :=
  let lt := LocalTime t in
  TimeClip (UTC (MakeDate (MakeDay year (MonthFromTime lt) (DateFromTime lt))
                          (TimeWithinDay lt))).

(** [new Date(new Date().setFullYear(new Date().getFullYear() + 1))] *)
Definition oneYearFrom (now : Z) : Date :=
  setFullYear now (getFullYear now + 1).

(** One turn of the loop body:
    [d.setMonth(d.getMonth() + 1)]. *)
Definition addMonth (d : Date) : Date :=
  setMonth d (option_map (fun m => m + 1) (getMonth d)).

(** The time value one month after [t], unclipped. *)
Definition nextMonth (t : Z) : Z :=
  withMonth t (MonthFromTime (LocalTime t) + 1).

(** [while (nextPaymentDate <= today) nextPaymentDate.setMonth(...)],
    cut off after [fuel] turns ([None]: the loop is still running). *)
Fixpoint advance (fuel : nat) (today : Date) (d : Date) : option Date :=
  if date_le d today then
    match fuel with
    | O => None
    | S fuel' => advance fuel' today (addMonth d)
    end
  else Some d.

(** A number of turns the loop cannot exceed: every turn moves the date
    forward by at least 28 days. *)
Definition turns (today start : Z) : nat :=
  Z.to_nat ((today - start) / (28 * msPerDay)) + 1.

(** calculateNextPaymentDate(startDate), with [today] the value of
    [new Date()]. *)
Definition calculateNextPaymentDate (today : Z) (startDate : Date) : Date :=
  match startDate with
  | Some start =>
      match advance (turns today start) (Some today) (Some start) with
      | Some d => d
      | None => None
      end
  | None => None
  end.
End LocalTime.

(** [Date.UTC(year, month, date)]: midnight UTC of a calendar day. *)
Definition utc (year month date : Z) : Z := MakeDate (MakeDay year month date) 0.

(** Case analysis on every condition of the goal. *)
Ltac split_ifs :=
  repeat match goal with
         | |- context [if ?b then _ else _] => destruct b eqn:?
         end.

End JSDate.

(** ** HTTP responses *)
Module Http.

(** What a handler sends: [res.status(code).json(body)], or
    [res.status(code).json({ message })]. *)
Inductive Response (A : Type) : Type :=
| Json (status : Z) (body : A)
| Message (status : Z) (message : string).
Arguments Json {A} status body.
Arguments Message {A} status message.

Definition status_of {A : Type} (r : Response A) : Z :=
  match r with
  | Json s _ => s
  | Message s _ => s
  end.

End Http.

(** ** The authorization middleware (authMiddleware.ts) *)
Module Auth.
Import JS.

(** What [jwt.decode(token)] gives: the payload as an object of claims or,
    when it is no JSON object, as a string; [null] for a token it cannot
    split; or an exception from parsing the payload.  The signature is not
    checked. *)
Inductive Decoded : Type :=
| DecodeThrows
| DecodedNull
| DecodedString (payload : string)
| DecodedObject (claims : gmap string value).

(** [req.user]. *)
Record User : Type := mkUser { id : value; role : value }.

Inductive Outcome : Type :=
| Respond (status : Z) (message : string)
| Next.

Record Result : Type := mkResult { user : option User; outcome : Outcome }.

(** [req.headers.authorization?.split(" ")[1]] *)
Definition bearerToken (authorization : option string) : option string :=
  match authorization with
  | Some h => split " " h !! 1%nat
  | None => None
  end.

(** [decoded[key]]; [None] when the access throws (decoded is null).  A
    string payload has no such property, except the method [sub] every
    string inherits. *)
Definition property (d : Decoded) (key : string) : option value :=
  match d with
  | DecodedObject claims => Some (default VUndefined (claims !! key))
  | DecodedString _ =>
      Some (if String.eqb key "sub" then VObject else VUndefined)
  | DecodedNull | DecodeThrows => None
  end.

(** [v || ""] *)
Definition or_empty (v : value) : value :=
  if truthy v then v else VStr "".

(** [userRole.toLowerCase()]; [None] when the call throws (userRole is
    no string). *)
Definition lowered (v : value) : option string :=
  match v with
  | VStr s => Some (toLowerCase s)
  | _ => None
  end.

Section Middleware.
Variable jwt_decode : string -> Decoded.

Definition authMiddleware (allowedRoles : list string)
    (authorization : option string) : Result :=
  match bearerToken authorization with
  | None => mkResult None (Respond 401 "Unauthorized")
  | Some token =>
      if String.eqb token "" then mkResult None (Respond 401 "Unauthorized")
      else
        match jwt_decode token with
        | DecodeThrows => mkResult None (Respond 400 "Invalid token")
        | decoded =>
            match property decoded "custom:role", property decoded "sub" with
            | Some r, Some sub =>
                let userRole := or_empty r in
                let u := mkUser sub userRole in
                match lowered userRole with
                | Some lower =>
                    if bool_decide (lower ∈ allowedRoles)
                    then mkResult (Some u) Next
                    else mkResult (Some u) (Respond 403 "Forbidden")
                | None => mkResult (Some u) (Respond 400 "Invalid token")
                end
            | _, _ => mkResult None (Respond 400 "Invalid token")
            end
        end
  end.
End Middleware.

(** The role the middleware reads from a decoded token: the string of the
    claim ["custom:role"], or the empty string when the claim is absent or
    falsy; [None] when the token has no claims to read or the claim is a
    truthy value that is no string. *)
Definition role_claim (decoded : Decoded) : option string :=
  match property decoded "custom:role" with
  | Some v =>
      match or_empty v with
      | VStr s => Some s
      | _ => None
      end
  | None => None
  end.

(** Equality of two strings up to the case of their letters. *)
Definition same_ignoring_case (a b : string) : Prop :=
  toLowerCase a = toLowerCase b.

End Auth.

(** ** The property search (propertyControllers.ts, getProperties) *)
Module PropertyQuery.
Import JS Http.

(** [req.query]: every parameter is a string, or absent. *)
Record Params : Type := mkParams {
  favoriteIds : option string;
  priceMin : option string;
  priceMax : option string;
  beds : option string;
  baths : option string;
  propertyType : option string;
  squareFeetMin : option string;
  squareFeetMax : option string;
  amenities : option string;
  availableFrom : option string;
  latitude : option string;
  longitude : option string
}.

Definition noParams : Params :=
  mkParams None None None None None None None None None None None None.

(** The fragments pushed on [whereConditions], each with the values bound
    in it. *)
Inductive Condition : Type :=
| IdIn (ids : list num)                     (* id IN (...) *)
| PriceAtLeast (n : num)                    (* pricePerMonth >= n *)
| PriceAtMost (n : num)                     (* pricePerMonth <= n *)
| BedsAtLeast (n : num)                     (* p.beds >= n *)
| BathsAtLeast (n : num)                    (* p.baths >= n *)
| SquareFeetAtLeast (n : num)               (* p."squareFeet" >= n *)
| SquareFeetAtMost (n : num)                (* p."squareFeet" <= n *)
| TypeIs (t : string)                       (* p."propertyType" = t *)
| HasAmenities (l : list string)            (* p.amenities @> l *)
| LeaseStartedBy (t : Z)                    (* EXISTS (... l."startDate" <= t) *)
| Within (lon lat : num) (degrees : Q).     (* ST_DWithin(..., degrees) *)

Inductive Param : Type :=
| PFavoriteIds | PPriceMin | PPriceMax | PBeds | PBaths | PPropertyType
| PSquareFeetMin | PSquareFeetMax | PAmenities | PAvailableFrom
| PLatitude | PLongitude.

#[global] Instance Param_eq_dec : EqDecision Param.
Proof. solve_decision. Defined.

Definition get (p : Param) (q : Params) : option string :=
  match p with
  | PFavoriteIds => favoriteIds q
  | PPriceMin => priceMin q
  | PPriceMax => priceMax q
  | PBeds => beds q
  | PBaths => baths q
  | PPropertyType => propertyType q
  | PSquareFeetMin => squareFeetMin q
  | PSquareFeetMax => squareFeetMax q
  | PAmenities => amenities q
  | PAvailableFrom => availableFrom q
  | PLatitude => latitude q
  | PLongitude => longitude q
  end.

Definition allParams : list Param :=
  [PFavoriteIds; PPriceMin; PPriceMax; PBeds; PBaths; PPropertyType;
   PSquareFeetMin; PSquareFeetMax; PAmenities; PAvailableFrom;
   PLatitude; PLongitude].

(** The parameters a condition is built from. *)
Definition built_from (c : Condition) : list Param :=
  match c with
  | IdIn _ => [PFavoriteIds]
  | PriceAtLeast _ => [PPriceMin]
  | PriceAtMost _ => [PPriceMax]
  | BedsAtLeast _ => [PBeds]
  | BathsAtLeast _ => [PBaths]
  | SquareFeetAtLeast _ => [PSquareFeetMin]
  | SquareFeetAtMost _ => [PSquareFeetMax]
  | TypeIs _ => [PPropertyType]
  | HasAmenities _ => [PAmenities]
  | LeaseStartedBy _ => [PAvailableFrom]
  | Within _ _ _ => [PLatitude; PLongitude]
  end.

Definition uses (p : Param) (c : Condition) : bool :=
  bool_decide (p ∈ built_from c).

(** [p && p !== "any"] *)
Definition given_not_any (p : option string) : bool :=
  param_truthy p && negb (String.eqb (param_string p) "any").

Definition rediusInKilometers : Q := 1000.
(** [rediusInKilometers / 111.32] *)
Definition degrees : Q := rediusInKilometers / (11132 # 100).

Definition when {A : Type} (b : bool) (l : list A) : list A :=
  if b then l else [].

Section Builder.
(** [new Date(string)]: the formats it reads beyond ISO 8601 depend on the
    engine. *)
Variable parseDate : string -> JSDate.Date.
(** The rows of the joined tables the database answers a query with, or
    the message of the error it raises. *)
Variable Row : Type.
Variable queryRaw : list Condition -> string + list Row.

Definition whereConditions (q : Params) : list Condition :=
  when (param_truthy (favoriteIds q))
       [IdIn (map Number (split "," (param_string (favoriteIds q))))]
  ++ when (param_truthy (priceMin q))
       [PriceAtLeast (Number (param_string (priceMin q)))]
  ++ when (param_truthy (priceMax q))
       [PriceAtMost (Number (param_string (priceMax q)))]
  ++ when (given_not_any (beds q))
       [BedsAtLeast (Number (param_string (beds q)))]
  ++ when (given_not_any (baths q))
       [BathsAtLeast (Number (param_string (baths q)))]
  ++ when (param_truthy (squareFeetMin q))
       [SquareFeetAtLeast (Number (param_string (squareFeetMin q)))]
  ++ when (param_truthy (squareFeetMax q))
       [SquareFeetAtMost (Number (param_string (squareFeetMax q)))]
  ++ when (given_not_any (propertyType q))
       [TypeIs (param_string (propertyType q))]
  ++ when (given_not_any (amenities q))
       [HasAmenities (split "," (param_string (amenities q)))]
  ++ when (param_truthy (availableFrom q))
       match parseDate (param_string (availableFrom q)) with
       | Some t => [LeaseStartedBy t]
       | None => []
       end
  ++ when (param_truthy (latitude q) && param_truthy (longitude q))
       [Within (parseFloat (param_string (longitude q)))
               (parseFloat (param_string (latitude q))) degrees].

(** The query sent: the fixed SELECT over Property joined with Location,
    with [WHERE c1 AND ... AND cn] when there are conditions and nothing
    ([Prisma.empty]) when there are none.  It is given by its list of
    conditions. *)
Definition completeQuery (q : Params) : list Condition := whereConditions q.

(** The query with no WHERE clause. *)
Definition unfiltered : list Condition := [].

Definition respond (r : string + list Row) : Response (list Row) :=
  match r with
  | inr properties => Json 200 properties
  | inl message =>
      Message 500 ("Error retrieving properties: " +:+ message)
  end.

Definition getProperties (q : Params) : Response (list Row) :=
  respond (queryRaw (completeQuery q)).
End Builder.

End PropertyQuery.

(** ** The database

    The Prisma schema (the declarations of the models of the database) is
    not among the sources.  The records below hold the columns the
    controllers read and write; their types are those section 3 of the
    specification gives: numeric identifiers drawn from a sequence, the
    status of an application as an open tag, the tenants of a property as
    a set of identity-provider ids. *)
Module Db.
Import JS Http.

Module Manager.
(** Modelled from the spec: the model Manager of the Prisma schema, a
    profile identified by the subject id of the identity provider. *)
Record t : Type := mk {
  id : Z; cognitoId : string; name : string; email : string;
  phoneNumber : string
}.
End Manager.

Module Tenant.
(** Modelled from the spec: the model Tenant of the Prisma schema, a
    profile identified by the subject id of the identity provider. *)
Record t : Type := mk {
  id : Z; cognitoId : string; name : string; email : string;
  phoneNumber : string
}.
End Tenant.

Module Location.
(** Modelled from the spec: the model Location of the Prisma schema, the
    postal address of a property and its point. *)
Record t : Type := mk {
  id : Z; address : string; city : string; state : string;
  country : string; postalCode : string;
  coordinates : num * num     (* longitude, latitude *)
}.
End Location.

Module Property.
(** Modelled from the spec: the model Property of the Prisma schema.
    [fields] holds the columns createProperty copies as submitted (name,
    description, propertyType and the like); [tenants] is the relation to
    Tenant, by cognitoId. *)
Record t : Type := mk {
  id : Z;
  fields : gmap string string;
  photoUrls : list string;
  locationId : Z;
  managerCognitoId : string;
  amenities : list string;
  highlights : list string;
  isPetsAllowed : bool;
  isParkingIncluded : bool;
  pricePerMonth : num;
  securityDeposit : num;
  applicationFee : num;
  beds : num;
  baths : num;
  squareFeet : num;
  tenants : gset string
}.

(** [tenants: { connect: { cognitoId } }] *)
Definition connect_tenant (cognitoId : string) (p : t) : t :=
  mk (id p) (fields p) (photoUrls p) (locationId p) (managerCognitoId p)
     (amenities p) (highlights p) (isPetsAllowed p) (isParkingIncluded p)
     (pricePerMonth p) (securityDeposit p) (applicationFee p) (beds p)
     (baths p) (squareFeet p) ({[ cognitoId ]} ∪ tenants p).
End Property.

Module Lease.
(** Modelled from the spec: the model Lease of the Prisma schema; the
    dates are time values. *)
Record t : Type := mk {
  id : Z; startDate : Z; endDate : Z; rent : num; deposit : num;
  propertyId : Z; tenantCognitoId : string
}.
End Lease.

Module Application.
(** Modelled from the spec: the model Application of the Prisma schema;
    the status is an open tag, the reference to a lease optional. *)
Record t : Type := mk {
  id : Z; applicationDate : Z; status : string; propertyId : Z;
  tenantCognitoId : string; name : string; email : string;
  phoneNumber : string; message : option string; leaseId : option Z
}.

Definition with_status (s : string) (a : t) : t :=
  mk (id a) (applicationDate a) s (propertyId a) (tenantCognitoId a)
     (name a) (email a) (phoneNumber a) (message a) (leaseId a).

Definition with_leaseId (l : option Z) (a : t) : t :=
  mk (id a) (applicationDate a) (status a) (propertyId a)
     (tenantCognitoId a) (name a) (email a) (phoneNumber a) (message a) l.
End Application.

(** The rows of each table, in the order they were inserted. *)
Record Tables : Type := mkTables {
  managers : list Manager.t;
  tenants : list Tenant.t;
  locations : list Location.t;
  properties : list Property.t;
  leases : list Lease.t;
  applications : list Application.t
}.

(** The next identifier of each table with generated identifiers. *)
Record Sequences : Type := mkSequences {
  nextLocationId : Z;
  nextPropertyId : Z;
  nextLeaseId : Z;
  nextApplicationId : Z
}.

(** The database, and the number of calls the handler has made to it. *)
Record World : Type := mkWorld {
  tables : Tables;
  sequences : Sequences;
  calls : nat
}.

(** How a call ends: with a value, or with an exception. *)
Inductive Outcome (A : Type) : Type :=
| Returned (a : A)
| Threw (message : string).
Arguments Returned {A} a.
Arguments Threw {A} message.

(** A computation of an asynchronous handler: it runs on the database
    and ends with a value or an exception. *)
Definition Async (A : Type) : Type := World -> World * Outcome A.

Definition ret {A : Type} (a : A) : Async A := fun w => (w, Returned a).

Definition throw {A : Type} (message : string) : Async A :=
  fun w => (w, Threw message).

Definition bind {A B : Type} (c : Async A) (k : A -> Async B) : Async B :=
  fun w =>
    match c w with
    | (w', Returned a) => k a w'
    | (w', Threw m) => (w', Threw m)
    end.

Declare Scope async_scope.
Delimit Scope async_scope with async.
Notation "x <- c ;; k" := (bind c (fun x => k))
  (at level 100, c at next level, right associativity) : async_scope.
Notation "c ;;; k" := (bind c (fun _ => k))
  (at level 100, right associativity) : async_scope.

(** Array.prototype.map with an asynchronous callback under Promise.all:
    the results in order, or the first exception. *)
Fixpoint mapM {A B : Type} (f : A -> Async B) (l : list A)
  : Async (list B) :=
  match l with
  | [] => ret []
  | a :: l' =>
      bind (f a) (fun b => bind (mapM f l') (fun bs => ret (b :: bs)))
  end.

(** [try { ... } catch (error) { res.status(500).json({ message: label +
    error.message }) }] *)
Definition handler {A : Type} (label : string) (body : Async (Response A))
  : World -> World * Response A :=
  fun w =>
    match body w with
    | (w', Returned r) => (w', r)
    | (w', Threw m) => (w', Message 500 (label +:+ m))
    end.

(** The result of a call outside the database. *)
Definition lift {A : Type} (r : Outcome A) : Async A := fun w => (w, r).

(** An operation of the database on its tables and sequences: the new
    state, and a result or the error raised. *)
Definition Operation (A : Type) : Type :=
  Tables -> Sequences -> Tables * Sequences * Outcome A.

Section Calls.
(** The call (counted from 0) at which the database fails, if any: a lost
    connection, a timeout. *)
Variable failing : option nat.

(** [await prisma.<model>.<operation>(...)] *)
Definition call {A : Type} (op : Operation A) : Async A :=
  fun w =>
    if bool_decide (failing = Some (calls w))
    then (mkWorld (tables w) (sequences w) (S (calls w)),
          Threw "the database call failed")
    else
      let '(t, s, r) := op (tables w) (sequences w) in
      (mkWorld t s (S (calls w)), r).

(** [prisma.$transaction(async (prisma) => body)]: when the body throws,
    the writes it made to the tables are rolled back (values drawn from the
    sequences are not given back) and the exception is thrown on. *)
Definition transaction {A : Type} (body : Async A) : Async A :=
  fun w =>
    match body w with
    | (w', Returned a) => (w', Returned a)
    | (w', Threw m) => (mkWorld (tables w) (sequences w') (calls w'), Threw m)
    end.
End Calls.

(** Every run of [c] takes the tables to tables related by [R]. *)
Definition maintains {A : Type} (R : Tables -> Tables -> Prop)
    (c : Async A) : Prop :=
  forall w, R (tables w) (tables (fst (c w))).

End Db.

(** ** The operations of the ORM the controllers call *)
Module Prisma.
Import JS Db.
Local Open Scope Z_scope.

Definition find_manager (t : Tables) (cognitoId : string) : option Manager.t :=
  List.find (fun m => String.eqb (Manager.cognitoId m) cognitoId) (managers t).

Definition find_tenant (t : Tables) (cognitoId : string) : option Tenant.t :=
  List.find (fun x => String.eqb (Tenant.cognitoId x) cognitoId) (tenants t).

Definition find_tenant_by_id (t : Tables) (id : Z) : option Tenant.t :=
  List.find (fun x => Tenant.id x =? id) (tenants t).

Definition find_location (t : Tables) (id : Z) : option Location.t :=
  List.find (fun l => Location.id l =? id) (locations t).

Definition find_property (t : Tables) (id : Z) : option Property.t :=
  List.find (fun p => Property.id p =? id) (properties t).

Definition find_lease (t : Tables) (id : Z) : option Lease.t :=
  List.find (fun l => Lease.id l =? id) (leases t).

Definition find_application (t : Tables) (id : Z) : option Application.t :=
  List.find (fun a => Application.id a =? id) (applications t).

Definition set_properties (t : Tables) (l : list Property.t) : Tables :=
  mkTables (managers t) (tenants t) (locations t) l (leases t)
           (applications t).

Definition set_leases (t : Tables) (l : list Lease.t) : Tables :=
  mkTables (managers t) (tenants t) (locations t) (properties t) l
           (applications t).

Definition set_applications (t : Tables) (l : list Application.t) : Tables :=
  mkTables (managers t) (tenants t) (locations t) (properties t) (leases t) l.

Definition set_locations (t : Tables) (l : list Location.t) : Tables :=
  mkTables (managers t) (tenants t) l (properties t) (leases t)
           (applications t).

Definition take_leaseId (s : Sequences) : Sequences :=
  mkSequences (nextLocationId s) (nextPropertyId s) (nextLeaseId s + 1)
              (nextApplicationId s).

Definition take_applicationId (s : Sequences) : Sequences :=
  mkSequences (nextLocationId s) (nextPropertyId s) (nextLeaseId s)
              (nextApplicationId s + 1).

Definition take_locationId (s : Sequences) : Sequences :=
  mkSequences (nextLocationId s + 1) (nextPropertyId s) (nextLeaseId s)
              (nextApplicationId s).

Definition take_propertyId (s : Sequences) : Sequences :=
  mkSequences (nextLocationId s) (nextPropertyId s + 1) (nextLeaseId s)
              (nextApplicationId s).

(** An application with the relations [include] asks for. *)
Record ApplicationWith : Type := mkApplicationWith {
  application : Application.t;
  property : option Property.t;
  tenant : option Tenant.t;
  lease : option Lease.t
}.

Definition include_relations (t : Tables) (a : Application.t)
  : ApplicationWith :=
  mkApplicationWith a
    (find_property t (Application.propertyId a))
    (find_tenant t (Application.tenantCognitoId a))
    (match Application.leaseId a with
     | Some l => find_lease t l
     | None => None
     end).

(** [prisma.application.findUnique({ where: { id }, include })]: the
    identifier must be an integer. *)
Definition application_findUnique (id : num)
  : Operation (option ApplicationWith) :=
  fun t s =>
    match num_int id with
    | Some n =>
        (t, s, Returned (option_map (include_relations t)
                                    (find_application t n)))
    | None => (t, s, Threw "Argument id: invalid value, expected Int")
    end.

(** The data of [prisma.lease.create] on the approval path. *)
Record LeaseData : Type := mkLeaseData {
  startDate : JSDate.Date;
  endDate : JSDate.Date;
  rent : num;
  deposit : num;
  propertyId : Z;
  tenantCognitoId : string
}.

(** [prisma.lease.create({ data })]: the dates must be valid, and the
    property and the tenant must exist.  The new row takes the next
    identifier of the sequence. *)
Definition lease_create (d : LeaseData) : Operation Lease.t :=
  fun t s =>
    match startDate d, endDate d with
    | Some sd, Some ed =>
        match find_property t (propertyId d),
              find_tenant t (tenantCognitoId d) with
        | Some _, Some _ =>
            let l := Lease.mk (nextLeaseId s) sd ed (rent d) (deposit d)
                              (propertyId d) (tenantCognitoId d) in
            (set_leases t (leases t ++ [l]), take_leaseId s, Returned l)
        | _, _ =>
            (t, take_leaseId s, Threw "Foreign key constraint violated")
        end
    | _, _ => (t, s, Threw "Provided Date object is invalid")
    end.

(** [prisma.property.update({ where: { id }, data: { tenants: { connect:
    { cognitoId } } } })] *)
Definition property_connect_tenant (id : Z) (cognitoId : string)
  : Operation unit :=
  fun t s =>
    match find_property t id, find_tenant t cognitoId with
    | Some _, Some _ =>
        (set_properties t
           (map (fun p => if Property.id p =? id
                          then Property.connect_tenant cognitoId p else p)
                (properties t)),
         s, Returned tt)
    | _, _ => (t, s, Threw "Record to update or to connect not found")
    end.

(** Modelled from the spec: the column status of Application, an open tag
    that takes any string.  The [status] of an update's data: [undefined]
    leaves the column as it is, a string sets it, any other value is
    refused. *)
Definition status_update (v : value) : option (Application.t -> Application.t) :=
  match v with
  | VUndefined => Some (fun a => a)
  | VStr s => Some (Application.with_status s)
  | _ => None
  end.

(** [prisma.application.update({ where: { id }, data: { status, leaseId } })];
    [leaseId] is [None] when the data names no leaseId. *)
Definition application_update (id : num) (status : value)
    (leaseId : option Z) : Operation unit :=
  fun t s =>
    match num_int id, status_update status with
    | Some n, Some set_status =>
        match find_application t n with
        | Some _ =>
            let set_lease (a : Application.t) :=
              match leaseId with
              | Some l => Application.with_leaseId (Some l) a
              | None => a
              end in
            let lease_exists :=
              match leaseId with
              | Some l => bool_decide (is_Some (find_lease t l))
              | None => true
              end in
            if lease_exists then
              (set_applications t
                 (map (fun a => if Application.id a =? n
                                then set_lease (set_status a) else a)
                      (applications t)),
               s, Returned tt)
            else (t, s, Threw "Foreign key constraint violated")
        | None => (t, s, Threw "Record to update not found")
        end
    | _, _ => (t, s, Threw "Invalid value provided")
    end.

(** Modelled from the spec: the identifiers of Property and Tenant are of
    type Int.  [where: { id: v }] and [connect: { id: v }] with a value of
    the request: the identifier must be an integer. *)
Definition id_of (v : value) : option Z :=
  match v with
  | VNum n => num_int n
  | _ => None
  end.

(** [prisma.property.findUnique({ where: { id }, select })] *)
Definition property_findUnique (id : value) : Operation (option Property.t) :=
  fun t s =>
    match id_of id with
    | Some n => (t, s, Returned (find_property t n))
    | None => (t, s, Threw "Argument id: invalid value, expected Int")
    end.

(** The data of [prisma.lease.create] on the creation path: the property
    and the tenant are connected by [id]. *)
Record LeaseConnect : Type := mkLeaseConnect {
  c_startDate : JSDate.Date;
  c_endDate : JSDate.Date;
  c_rent : num;
  c_deposit : num;
  c_property : value;      (* property: { connect: { id } } *)
  c_tenant : value         (* tenant: { connect: { id } } *)
}.

Definition lease_create_connect (d : LeaseConnect) : Operation Lease.t :=
  fun t s =>
    match c_startDate d, c_endDate d, id_of (c_property d), id_of (c_tenant d) with
    | Some sd, Some ed, Some pid, Some tid =>
        match find_property t pid, find_tenant_by_id t tid with
        | Some _, Some x =>
            let l := Lease.mk (nextLeaseId s) sd ed (c_rent d) (c_deposit d)
                              pid (Tenant.cognitoId x) in
            (set_leases t (leases t ++ [l]), take_leaseId s, Returned l)
        | _, _ => (t, s, Threw "No record was found for a connect")
        end
    | _, _, _, _ => (t, s, Threw "Invalid value provided")
    end.

(** The data of [prisma.application.create]. *)
Record ApplicationData : Type := mkApplicationData {
  d_applicationDate : JSDate.Date;
  d_status : value;
  d_name : value;
  d_email : value;
  d_phoneNumber : value;
  d_message : value;
  d_property : value;      (* property: { connect: { id } } *)
  d_tenant : value;        (* tenant: { connect: { id } } *)
  d_lease : Z              (* lease: { connect: { id } } *)
}.

Definition string_of (v : value) : option string :=
  match v with
  | VStr s => Some s
  | _ => None
  end.

(** An optional column: absent or null, or a string. *)
Definition optional_string (v : value) : option (option string) :=
  match v with
  | VUndefined | VNull => Some None
  | VStr s => Some (Some s)
  | _ => None
  end.

(** Modelled from the spec: the columns of Application, of which only the
    message is optional.  [prisma.application.create({ data, include })]:
    the date must be valid, the status and the contact columns strings,
    and the connected rows must exist. *)
Definition application_create (d : ApplicationData)
  : Operation ApplicationWith :=
  fun t s =>
    match d_applicationDate d, string_of (d_status d), string_of (d_name d),
          string_of (d_email d), string_of (d_phoneNumber d),
          optional_string (d_message d),
          id_of (d_property d), id_of (d_tenant d) with
    | Some date, Some st, Some nm, Some em, Some ph, Some msg,
      Some pid, Some tid =>
        match find_property t pid, find_tenant_by_id t tid,
              find_lease t (d_lease d) with
        | Some _, Some x, Some _ =>
            let a := Application.mk (nextApplicationId s) date st pid
                       (Tenant.cognitoId x) nm em ph msg (Some (d_lease d)) in
            let t' := set_applications t (applications t ++ [a]) in
            (t', take_applicationId s, Returned (include_relations t' a))
        | _, _, _ => (t, s, Threw "No record was found for a connect")
        end
    | _, _, _, _, _, _, _, _ => (t, s, Threw "Invalid value provided")
    end.

(** Modelled from the spec: the foreign keys and generated identifiers of
    the Prisma schema.  Referential integrity as the database keeps it: every application has its property, tenant and (when
    it names one) lease, every property its location, and the identifiers
    of locations and leases are ones their sequences have given out. *)
Definition integrity (t : Tables) (s : Sequences) : bool :=
  forallb
    (fun a =>
       bool_decide (is_Some (find_property t (Application.propertyId a)))
       && bool_decide (is_Some (find_tenant t (Application.tenantCognitoId a)))
       && match Application.leaseId a with
          | Some k => bool_decide (is_Some (find_lease t k))
          | None => true
          end)
    (applications t)
  && forallb
       (fun p => bool_decide (is_Some (find_location t (Property.locationId p))))
       (properties t)
  && forallb (fun l => Lease.id l <? nextLeaseId s) (leases t)
  && forallb (fun l => Location.id l <? nextLocationId s) (locations t).

End Prisma.

(** ** The application controllers (listApplications, createApplication,
    updateApplicationStatus) *)
Module Applications.
Import JS Http Db Prisma.
Local Open Scope Z_scope.
Local Open Scope async_scope.

(** The [where] of [prisma.application.findMany]. *)
Inductive Where : Type :=
| WhereAll                              (* {} *)
| WhereTenant (cognitoId : string)      (* { tenantCognitoId } *)
| WhereManager (cognitoId : string).    (* { property: { managerCognitoId } } *)

Definition whereClause (userId userType : option string) : Where :=
  if param_truthy userId && param_truthy userType then
    if String.eqb (param_string userType) "tenant"
    then WhereTenant (param_string userId)
    else if String.eqb (param_string userType) "manager"
         then WhereManager (param_string userId)
         else WhereAll
  else WhereAll.

Definition satisfies (t : Tables) (w : Where) (a : Application.t) : bool :=
  match w with
  | WhereAll => true
  | WhereTenant c => String.eqb (Application.tenantCognitoId a) c
  | WhereManager c =>
      match find_property t (Application.propertyId a) with
      | Some p => String.eqb (Property.managerCognitoId p) c
      | None => false
      end
  end.

(** A property with its location and manager included. *)
Record PropertyWith : Type := mkPropertyWith {
  the_property : Property.t;
  location : option Location.t;
  manager : option Manager.t
}.

(** An application as [findMany] returns it here: with its property (the
    location and manager of it) and its tenant. *)
Record Listed : Type := mkListed {
  listed : Application.t;
  listed_property : option PropertyWith;
  listed_tenant : option Tenant.t
}.

Definition include_listed (t : Tables) (a : Application.t) : Listed :=
  mkListed a
    (option_map
       (fun p => mkPropertyWith p
                   (find_location t (Property.locationId p))
                   (find_manager t (Property.managerCognitoId p)))
       (find_property t (Application.propertyId a)))
    (find_tenant t (Application.tenantCognitoId a)).

(** The applications [findMany({ where })] selects. *)
Definition selected (t : Tables) (w : Where) : list Application.t :=
  filter (fun a => satisfies t w a = true) (applications t).

Definition application_findMany (w : Where) : Operation (list Listed) :=
  fun t s => (t, s, Returned (map (include_listed t) (selected t w))).

(** The leases [{ tenant: { cognitoId }, propertyId }] selects: those of
    the property whose tenant is the row with this cognitoId. *)
Definition lease_matches (t : Tables) (cognitoId : string) (propertyId : Z)
    (l : Lease.t) : bool :=
  match find_tenant t (Lease.tenantCognitoId l) with
  | Some x => String.eqb (Tenant.cognitoId x) cognitoId
  | None => false
  end
  && (Lease.propertyId l =? propertyId).

(** The first row in the order [startDate desc] (of rows with the same
    start date, the one inserted first). *)
Fixpoint latest (ls : list Lease.t) : option Lease.t :=
  match ls with
  | [] => None
  | l :: rest =>
      match latest rest with
      | Some m =>
          if Lease.startDate l <? Lease.startDate m then Some m else Some l
      | None => Some l
      end
  end.

(** [prisma.lease.findFirst({ where: { tenant: { cognitoId }, propertyId },
    orderBy: { startDate: "desc" } })] *)
Definition lease_findFirst (cognitoId : string) (propertyId : Z)
  : Operation (option Lease.t) :=
  fun t s =>
    (t, s,
     Returned (latest (filter (fun l => lease_matches t cognitoId propertyId l
                                        = true) (leases t)))).

(** An element of the list [listApplications] answers. *)
Record Formatted : Type := mkFormatted {
  app : Listed;
  address : string;
  app_manager : option Manager.t;
  app_lease : option (Lease.t * JSDate.Date)   (* with nextPaymentDate *)
}.

Section Handlers.
Variable failing : option nat.
(** The local time zone, and the time every [new Date()] of the request
    reads (the reads of one request are taken to be one instant). *)
Variable tza : Z.
Variable now : Z.

Definition formatApplication (a : Listed) : Async Formatted :=
  lease <- call failing
             (lease_findFirst (Application.tenantCognitoId (listed a))
                              (Application.propertyId (listed a))) ;;
  match listed_property a with
  | Some p =>
      match location p with
      | Some loc =>
          ret (mkFormatted a (Location.address loc) (manager p)
                 (option_map
                    (fun l => (l, JSDate.calculateNextPaymentDate tza now
                                    (Some (Lease.startDate l))))
                    lease))
      | None => throw "Cannot read properties of null (reading 'address')"
      end
  | None => throw "Cannot read properties of null (reading 'location')"
  end.

Definition listApplications (userId userType : option string)
  : World -> World * Response (list Formatted) :=
  handler "Error retrieving applications: "
    (applications <- call failing
                       (application_findMany (whereClause userId userType)) ;;
     formattedApplications <- mapM formatApplication applications ;;
     ret (Json 200 formattedApplications)).

(** [updateApplicationStatus]: [id] is [req.params.id], [status] is
    [req.body.status]. *)
Definition updateApplicationStatus (id : string) (status : value)
  : World -> World * Response (option ApplicationWith) :=
  handler "Error updating application status: "
    (application <- call failing (application_findUnique (Number id)) ;;
     match application with
     | None => ret (Message 404 "Application not found.")
     | Some application =>
         (if is_string "Approved" status then
              match property application with
              | Some p =>
                  newLease <- call failing
                    (lease_create
                       (mkLeaseData
                          (Some now) (JSDate.oneYearFrom tza now)
                          (Property.pricePerMonth p)
                          (Property.securityDeposit p)
                          (Application.propertyId (Prisma.application application))
                          (Application.tenantCognitoId
                             (Prisma.application application)))) ;;
                  call failing
                    (property_connect_tenant
                       (Application.propertyId (Prisma.application application))
                       (Application.tenantCognitoId
                          (Prisma.application application))) ;;;
                  call failing
                    (application_update (Number id) status
                       (Some (Lease.id newLease)))
              | None =>
                  throw "Cannot read properties of null (reading 'pricePerMonth')"
              end
          else call failing (application_update (Number id) status None)) ;;;
         updatedApplication <- call failing
                                 (application_findUnique (Number id)) ;;
         ret (Json 200 updatedApplication)
     end).
(** [req.body] of createApplication. *)
Record ApplicationBody : Type := mkApplicationBody {
  applicationDate : value;
  status : value;
  propertyId : value;
  tenantCognitoId : value;
  name : value;
  email : value;
  phoneNumber : value;
  message : value
}.

(** [new Date(string)]: the formats it reads beyond ISO 8601 depend on the
    engine. *)
Variable parseDate : string -> JSDate.Date.

(** [new Date(v)] *)
Definition newDate (v : value) : JSDate.Date :=
  match v with
  | VUndefined => None
  | VNull => Some 0
  | VBool b => Some (if b then 1 else 0)
  | VNum n =>
      match num_trunc n with
      | Some z => JSDate.TimeClip z
      | None => None
      end
  | VStr s => parseDate s
  | VObject => None
  end.

Definition createApplication (body : ApplicationBody)
  : World -> World * Response ApplicationWith :=
  handler "Error creating application: "
    (property <- call failing (property_findUnique (propertyId body)) ;;
     match property with
     | None => ret (Message 404 "Property not found.")
     | Some property =>
         newApplication <- transaction
           (lease <- call failing
                       (lease_create_connect
                          (mkLeaseConnect
                             (Some now) (JSDate.oneYearFrom tza now)
                             (Property.pricePerMonth property)
                             (Property.securityDeposit property)
                             (propertyId body) (tenantCognitoId body))) ;;
            application <- call failing
                             (application_create
                                (mkApplicationData
                                   (newDate (applicationDate body))
                                   (status body) (name body) (email body)
                                   (phoneNumber body) (message body)
                                   (propertyId body) (tenantCognitoId body)
                                   (Lease.id lease))) ;;
            ret application) ;;
         ret (Json 201 newApplication)
     end).
End Handlers.

(** [t'] is [t] but for the status of some applications. *)
Definition status_only (t t' : Tables) : Prop :=
  managers t' = managers t /\ tenants t' = tenants t
  /\ locations t' = locations t /\ properties t' = properties t
  /\ leases t' = leases t
  /\ Forall2 (fun a a' => exists s, a' = Application.with_status s a)
             (applications t) (applications t').

(** The lease of an entry of the list, as a function of the tables and of
    the tenant and property of the application. *)
Definition listed_lease (tza now : Z) (t : Tables) (a : Application.t)
  : option (Lease.t * JSDate.Date) :=
  option_map
    (fun l => (l, JSDate.calculateNextPaymentDate tza now
                    (Some (Lease.startDate l))))
    (latest (filter (fun l => lease_matches t (Application.tenantCognitoId a)
                                (Application.propertyId a) l = true)
                    (leases t))).

(** The lease an approval creates at [now], to end at [ends], for the
    application [a] of the property [p]. *)
Definition approval_lease (w : World) (now ends : Z) (a : Application.t)
    (p : Property.t) : Lease.t :=
  Lease.mk (nextLeaseId (sequences w)) now ends
           (Property.pricePerMonth p) (Property.securityDeposit p)
           (Application.propertyId a) (Application.tenantCognitoId a).

Definition approved_application (w : World) (a : Application.t)
  : Application.t :=
  Application.with_leaseId (Some (nextLeaseId (sequences w)))
    (Application.with_status "Approved" a).

Definition approved_property (a : Application.t) (p : Property.t)
  : Property.t :=
  Property.connect_tenant (Application.tenantCognitoId a) p.

(** The tables after the approval of the application [a] of identifier
    [n]. *)
Definition approved_tables (w : World) (now ends n : Z) (a : Application.t)
    (p : Property.t) : Tables :=
  mkTables (managers (tables w)) (tenants (tables w)) (locations (tables w))
    (map (fun q => if Property.id q =? Application.propertyId a
                   then Property.connect_tenant (Application.tenantCognitoId a) q
                   else q)
         (properties (tables w)))
    (leases (tables w) ++ [approval_lease w now ends a p])
    (map (fun b => if Application.id b =? n
                   then approved_application w b else b)
         (applications (tables w))).

End Applications.

(** ** Creating a property (propertyControllers.ts, createProperty) *)
Module Properties.
Import JS Http Db Prisma.
Local Open Scope Z_scope.
Local Open Scope async_scope.

(** An uploaded file ([Express.Multer.File]). *)
Record File : Type := mkFile {
  originalname : string;
  buffer : string;
  mimetype : string
}.

(** [req.body]: the fields of the form.  The address fields and the
    manager are named apart; [propertyData] holds the other fields, each a
    string or absent. *)
Record Body : Type := mkBody {
  address : string;
  city : string;
  state : string;
  country : string;
  postalCode : string;
  managerCognitoId : string;
  propertyData : gmap string string
}.

(** An element of the geocoding service's answer. *)
Record GeoResult : Type := mkGeoResult {
  lon : option string;
  lat : option string
}.

(** A created property with its location and manager included. *)
Record Created : Type := mkCreated {
  property : Property.t;
  location : option Location.t;
  manager : option Manager.t
}.

(** [data[0]?.lon && data[0]?.lat ? [parseFloat(lon), parseFloat(lat)]
    : [0, 0]] *)
Definition coordinates (data : list GeoResult) : num * num :=
  match data with
  | r :: _ =>
      if param_truthy (lon r) && param_truthy (lat r)
      then (parseFloat (param_string (lon r)), parseFloat (param_string (lat r)))
      else (zero, zero)
  | [] => (zero, zero)
  end.

(** [typeof v === "string" ? v.split(",") : []] *)
Definition string_list (v : option string) : list string :=
  match v with
  | Some s => split "," s
  | None => []
  end.

(** [v === "true"] *)
Definition is_true (v : option string) : bool :=
  match v with
  | Some s => String.eqb s "true"
  | None => false
  end.

(** The columns [data] names itself; in [...propertyData] they are
    overwritten. *)
Definition converted : list string :=
  ["photoUrls"; "locationId"; "amenities"; "highlights"; "isPetsAllowed";
   "isParkingIncluded"; "pricePerMonth"; "securityDeposit"; "applicationFee";
   "beds"; "baths"; "squareFeet"].

(** The [data] of [prisma.property.create]; the identifier is the one the
    row will get. *)
Definition propertyRow (id : Z) (body : Body) (photoUrls : list string)
    (locationId : Z) : Property.t :=
  let d := propertyData body in
  let number f k := f (param_string (d !! k)) in
  Property.mk id
    (foldr delete d converted)
    photoUrls locationId (managerCognitoId body)
    (string_list (d !! "amenities"))
    (string_list (d !! "highlights"))
    (is_true (d !! "isPetsAllowed"))
    (is_true (d !! "isParkingIncluded"))
    (number parseFloat "pricePerMonth")
    (number parseFloat "securityDeposit")
    (number parseFloat "applicationFee")
    (number parseInt "beds")
    (number parseFloat "baths")
    (number parseInt "squareFeet")
    ∅.

(** [INSERT INTO "Location" ... RETURNING ...] *)
Definition location_insert (body : Body) (point : num * num)
  : Operation Location.t :=
  fun t s =>
    let l := Location.mk (nextLocationId s) (address body) (city body)
                         (state body) (country body) (postalCode body)
                         point in
    (set_locations t (locations t ++ [l]), take_locationId s, Returned l).

Section CreateProperty.
Variable failing : option nat.
(** The upload of a file to the object storage under the key built from
    [Date.now()] and the name of the file: the URL of the object, or an
    exception. *)
Variable upload : Z -> File -> Outcome string.
(** The geocoding service asked for street, city, country and postal code:
    the list it answers, or an exception. *)
Variable geocode : string -> string -> string -> string -> Outcome (list GeoResult).
(** The checks of the ORM and of the database on a row of Property that
    the sources do not show (the types and constraints of its columns):
    the message of the error raised, if any. *)
Variable prisma_refuses : Property.t -> option string.
Variable now : Z.

(** [Promise.all(files.map(async (file) => ...))] *)
Fixpoint uploads (files : list File) : Outcome (list string) :=
  match files with
  | [] => Returned []
  | f :: rest =>
      match upload now f, uploads rest with
      | Returned url, Returned urls => Returned (url :: urls)
      | Threw m, _ => Threw m
      | _, Threw m => Threw m
      end
  end.

(** [prisma.property.create({ data, include: { location, manager } })]:
    the manager and the location must exist. *)
Definition property_create (body : Body) (photoUrls : list string)
    (locationId : Z) : Operation Created :=
  fun t s =>
    let p := propertyRow (nextPropertyId s) body photoUrls locationId in
    match prisma_refuses p with
    | Some m => (t, s, Threw m)
    | None =>
        match find_manager t (managerCognitoId body),
              find_location t locationId with
        | Some m, Some l =>
            (set_properties t (properties t ++ [p]), take_propertyId s,
             Returned (mkCreated p (Some l) (Some m)))
        | _, _ =>
            (t, take_propertyId s, Threw "Foreign key constraint violated")
        end
    end.

Definition createProperty (files : list File) (body : Body)
  : World -> World * Response Created :=
  handler "Error creating property: "
    (photoUrls <- lift (uploads files) ;;
     geocodingResponse <- lift (geocode (address body) (city body)
                                        (country body) (postalCode body)) ;;
     location <- call failing
                   (location_insert body (coordinates geocodingResponse)) ;;
     newProperty <- call failing
                      (property_create body photoUrls (Location.id location)) ;;
     ret (Json 201 newProperty)).

(** The location [createProperty] inserts for the coordinates [point]. *)
Definition inserted_location (body : Body) (w : World) (point : num * num)
  : Location.t :=
  Location.mk (nextLocationId (sequences w)) (address body) (city body)
              (state body) (country body) (postalCode body) point.

(** What [createProperty] has written when it answers: nothing, or the
    location, or the location and then the property. *)
Inductive written (files : list File) (body : Body) (w : World)
    (result : World * Response Created) : Prop :=
| WroteNothing m :
    snd result = Message 500 ("Error creating property: " +:+ m) ->
    tables (fst result) = tables w ->
    written files body w result
| WroteLocation m data :
    geocode (address body) (city body) (country body) (postalCode body)
    = Returned data ->
    snd result = Message 500 ("Error creating property: " +:+ m) ->
    tables (fst result)
    = set_locations (tables w)
        (locations (tables w) ++ [inserted_location body w (coordinates data)]) ->
    written files body w result
| WroteProperty urls data created :
    uploads files = Returned urls ->
    geocode (address body) (city body) (country body) (postalCode body)
    = Returned data ->
    snd result = Json 201 created ->
    property created
    = propertyRow (nextPropertyId (sequences w)) body urls
                  (nextLocationId (sequences w)) ->
    tables (fst result)
    = set_properties
        (set_locations (tables w)
           (locations (tables w) ++ [inserted_location body w (coordinates data)]))
        (properties (tables w) ++ [property created]) ->
    written files body w result.
End CreateProperty.

(** The answer of the geocoding service lacks a longitude or a latitude:
    it is empty, or its first element has no [lon] or no [lat]. *)
Definition lacks_coordinates (data : list GeoResult) : Prop :=
  match data with
  | [] => True
  | r :: _ => lon r = None \/ lat r = None
  end.

End Properties.

(** ** Reading one property (propertyControllers.ts, getProperty) *)
Module PropertyLookup.
Import JS Http Db Prisma.
Local Open Scope Z_scope.
Local Open Scope async_scope.

(** The body of the answer: the property, its location, and the
    coordinates read back from the text of the point ([undefined] when the
    geometry has fewer). *)
Record Found : Type := mkFound {
  property : Property.t;
  location : Location.t;
  longitude : option num;
  latitude : option num
}.

(** [prisma.property.findUnique({ where: { id }, include: { location:
    true } })] *)
Definition property_findUnique_location (id : num)
  : Operation (option (Property.t * option Location.t)) :=
  fun t s =>
    match num_int id with
    | Some n =>
        (t, s,
         Returned (option_map
                     (fun p => (p, find_location t (Property.locationId p)))
                     (find_property t n)))
    | None => (t, s, Threw "Argument id: invalid value, expected Int")
    end.

Section GetProperty.
Variable failing : option nat.
(** PostGIS's [ST_asText] of a point, the well-known text of it. *)
Variable ST_asText : num * num -> string.
(** [wktToGeoJSON(text).coordinates]: the coordinates of the geometry the
    text describes, or the exception for a text that describes none. *)
Variable wktToGeoJSON : string -> Outcome (list num).

(** [SELECT ST_asText(coordinates) as coordinates FROM "Location" WHERE
    id = ...] *)
Definition location_text (id : Z) : Operation (list string) :=
  fun t s =>
    (t, s,
     Returned (map (fun l => ST_asText (Location.coordinates l))
                   (List.filter (fun l => Location.id l =? id) (locations t)))).

(** [coordinates[0]?.coordinates || ""] *)
Definition first_text (rows : list string) : string :=
  match rows with
  | text :: _ => text
  | [] => ""
  end.

(** [getProperty]: [id] is [req.params.id].  The answer is [None] when
    the handler returns without sending one. *)
Definition getProperty (id : string)
  : World -> World * option (Response Found) :=
  fun w =>
    match
      (found <- call failing (property_findUnique_location (Number id)) ;;
       match found with
       | Some (p, location) =>
           match location with
           | Some l =>
               coordinates <- call failing (location_text (Location.id l)) ;;
               geoJSON <- lift (wktToGeoJSON (first_text coordinates)) ;;
               ret (Some (Json 200 (mkFound p l (geoJSON !! 0%nat)
                                            (geoJSON !! 1%nat))))
           | None => throw "Cannot read properties of null (reading 'id')"
           end
       | None => ret None
       end) w
    with
    | (w', Returned r) => (w', r)
    | (w', Threw m) =>
        (w', Some (Message 500 ("Error retrieving property: " +:+ m)))
    end.
End GetProperty.

End PropertyLookup.

(** ** The routers (propertyRoutes, managerRoutes, tenantRoutes) *)
Module Routes.
Import JS Http Db Prisma.

Inductive Method : Type := GET | POST | PUT | PATCH | DELETE.

#[global] Instance Method_eq_dec : EqDecision Method.
Proof. solve_decision. Defined.

(** A segment of a route's path: a literal, or a parameter ([:name]). *)
Inductive Segment : Type :=
| Literal (s : string)
| Param (name : string).

(** [router.<method>(path, ...handlers)]; the path ["/"] has no
    segment. *)
Record Route (H : Type) : Type := mkRoute {
  method : Method;
  path : list Segment;
  handlers : list H
}.
Arguments mkRoute {H} method path handlers.
Arguments method {H} r.
Arguments path {H} r.
Arguments handlers {H} r.

Definition segment_matches (p : Segment) (s : string) : bool :=
  match p with
  | Literal l => String.eqb l s
  | Param _ => negb (String.eqb s "")
  end.

(** A request path, as its segments, against the path of a route. *)
Fixpoint path_matches (pattern : list Segment) (segments : list string)
  : bool :=
  match pattern, segments with
  | [], [] => true
  | p :: pattern', s :: segments' =>
      segment_matches p s && path_matches pattern' segments'
  | _, _ => false
  end.

(** The handlers a router has for a request, in the order it calls them:
    those of every route that matches, in the order of registration.  Each
    runs only if the one before it called [next()]. *)
Definition chain {H : Type} (routes : list (Route H)) (m : Method)
    (segments : list string) : list H :=
  flat_map
    (fun r => if bool_decide (method r = m) && path_matches (path r) segments
              then handlers r else [])
    routes.

Inductive ManagerHandler : Type := getManager | updateManager | createManager.

(** The router of the managers. *)
Definition managerRoutes : list (Route ManagerHandler) :=
  [mkRoute GET [Param "cognitoId"] [getManager];
   mkRoute GET [Param "cognitoId"] [updateManager];
   mkRoute POST [] [createManager]].

Inductive TenantHandler : Type := getTenant | updateTenant | createTenant.

(** The router of the tenants. *)
Definition tenantRoutes : list (Route TenantHandler) :=
  [mkRoute GET [Param "cognitoId"] [getTenant];
   mkRoute GET [Param "cognitoId"] [updateTenant];
   mkRoute POST [] [createTenant]].

Inductive PropertyHandler : Type :=
| getProperties
| getProperty
| authMiddleware (allowedRoles : list string)
| uploadArray (field : string)
| createProperty.

(** The router of the properties. *)
Definition propertyRoutes : list (Route PropertyHandler) :=
  [mkRoute GET [] [getProperties];
   mkRoute GET [Param "id"] [getProperty];
   mkRoute POST [] [authMiddleware ["manager"]; uploadArray "photos";
                    createProperty]].

Section PostProperty.
Variable jwt_decode : string -> Auth.Decoded.
Variable failing : option nat.
Variable upload : Z -> Properties.File -> Outcome string.
Variable geocode :
  string -> string -> string -> string -> Outcome (list Properties.GeoResult).
Variable prisma_refuses : Property.t -> option string.
Variable now : Z.

(** The chain of [POST /]: the middleware answers, or calls [next()] and
    the request, with the files and fields [upload.array("photos")] read
    from it, reaches createProperty. *)
Definition postProperty (authorization : option string)
    (files : list Properties.File) (body : Properties.Body)
  : World -> World * Response Properties.Created :=
  match Auth.outcome (Auth.authMiddleware jwt_decode ["manager"] authorization)
  with
  | Auth.Respond status message => fun w => (w, Message status message)
  | Auth.Next =>
      Properties.createProperty failing upload geocode prisma_refuses now
                                files body
  end.
End PostProperty.

End Routes.


(** ** The invariant of the database *)
Module Invariant.
Import JS Http Db Prisma.
Local Open Scope Z_scope.

(** Modelled from the spec: the identifiers of Property and Application
    are generated by the database.  The identifiers of the properties and
    applications are ones their sequences have given out. *)
Definition issued (t : Tables) (s : Sequences) : bool :=
  forallb (fun p => Property.id p <? nextPropertyId s) (properties t)
  && forallb (fun a => Application.id a <? nextApplicationId s)
             (applications t).

(** Modelled from the spec: Lease refers to a Property and to a Tenant.
    Every lease has its property and its tenant. *)
Definition referenced (t : Tables) : bool :=
  forallb
    (fun l =>
       bool_decide (is_Some (find_property t (Lease.propertyId l)))
       && bool_decide (is_Some (find_tenant t (Lease.tenantCognitoId l))))
    (leases t).

(** The state of a database that keeps its references and sequences. *)
Definition consistent (t : Tables) (s : Sequences) : bool :=
  integrity t s && issued t s && referenced t.

(** [consistent], clause by clause. *)
Record Consistent (t : Tables) (s : Sequences) : Prop := mkConsistent {
  application_refs :
    forall a, In a (applications t) ->
      is_Some (find_property t (Application.propertyId a))
      /\ is_Some (find_tenant t (Application.tenantCognitoId a))
      /\ forall k, Application.leaseId a = Some k -> is_Some (find_lease t k);
  property_refs :
    forall p, In p (properties t) ->
      is_Some (find_location t (Property.locationId p));
  lease_ids : forall l, In l (leases t) -> Lease.id l < nextLeaseId s;
  location_ids :
    forall l, In l (locations t) -> Location.id l < nextLocationId s;
  property_ids :
    forall p, In p (properties t) -> Property.id p < nextPropertyId s;
  application_ids :
    forall a, In a (applications t) -> Application.id a < nextApplicationId s;
  lease_refs :
    forall l, In l (leases t) ->
      is_Some (find_property t (Lease.propertyId l))
      /\ is_Some (find_tenant t (Lease.tenantCognitoId l))
}.

(** No sequence goes back. *)
Definition grows (s s' : Sequences) : Prop :=
  nextLocationId s <= nextLocationId s'
  /\ nextPropertyId s <= nextPropertyId s'
  /\ nextLeaseId s <= nextLeaseId s'
  /\ nextApplicationId s <= nextApplicationId s'.

(** An operation of the database that takes consistent states to
    consistent states, whatever it returns. *)
Definition preserving {A : Type} (op : Operation A) : Prop :=
  forall t s, Consistent t s ->
    Consistent (fst (fst (op t s))) (snd (fst (op t s)))
    /\ grows s (snd (fst (op t s))).

(** A computation that does so. *)
Definition preserved {A : Type} (c : World -> World * A) : Prop :=
  forall w, Consistent (tables w) (sequences w) ->
    Consistent (tables (fst (c w))) (sequences (fst (c w)))
    /\ grows (sequences w) (sequences (fst (c w))).

(** A computation that writes nothing: the tables and the sequences are
    after it what they were. *)
Definition reads {A : Type} (c : World -> World * A) : Prop :=
  forall w, tables (fst (c w)) = tables w
            /\ sequences (fst (c w)) = sequences w.

End Invariant.

(** ** Sample data for the examples *)
Module Fixtures.
Import JS Auth PropertyQuery Db Prisma.
Local Open Scope Z_scope.

(** The tokens of the examples and what they decode to. *)
Definition decode_sample (token : string) : Decoded :=
  if String.eqb token "ann.manager"
  then DecodedObject {[ "sub" := VStr "mgr-ann"; "custom:role" := VStr "manager" ]}
  else if String.eqb token "ann.Manager"
  then DecodedObject {[ "sub" := VStr "mgr-ann"; "custom:role" := VStr "Manager" ]}
  else if String.eqb token "bob.tenant"
  then DecodedObject {[ "sub" := VStr "ten-bob"; "custom:role" := VStr "tenant" ]}
  else DecodedNull.

(** A date parser for examples: every string is the epoch. *)
Definition parse_epoch (s : string) : JSDate.Date := Some 0.

(** A request that sets a minimal price and a number of beds only. *)
Definition price_only : Params :=
  mkParams None (Some "900") None (Some "2") None None None None None None
           None None.

(** A database with no property. *)
Definition no_rows (c : list Condition) : string + list nat := inr [].

Definition ann : Manager.t :=
  Manager.mk 1 "mgr-ann" "Ann" "ann@example.org" "555-0100".
Definition bob : Tenant.t :=
  Tenant.mk 1 "ten-bob" "Bob" "bob@example.org" "555-0101".
Definition eve : Tenant.t :=
  Tenant.mk 2 "ten-eve" "Eve" "eve@example.org" "555-0102".
Definition main_street : Location.t :=
  Location.mk 1 "1 Main Street" "Springfield" "IL" "USA" "62701"
              (Dec true 896501 (-4), Dec false 397817 (-4)).
Definition flat : Property.t :=
  Property.mk 1 {[ "name" := "Flat"; "propertyType" := "Apartment" ]}
    [] 1 "mgr-ann" ["WiFi"] [] true false
    (Dec false 1500 0) (Dec false 3000 0) (Dec false 50 0)
    (Dec false 2 0) (Dec false 1 0) (Dec false 800 0) ∅.

(** Bob applied on 2023-01-15, which created lease 1; lease 2 is a later
    lease of his for the same property.  Eve's application has no lease. *)
Definition lease1 : Lease.t :=
  Lease.mk 1 (JSDate.utc 2023 0 15) (JSDate.utc 2024 0 15)
           (Dec false 1500 0) (Dec false 3000 0) 1 "ten-bob".
Definition lease2 : Lease.t :=
  Lease.mk 2 (JSDate.utc 2023 1 1) (JSDate.utc 2024 1 1)
           (Dec false 1500 0) (Dec false 3000 0) 1 "ten-bob".
Definition bobs_application : Application.t :=
  Application.mk 1 (JSDate.utc 2023 0 15) "Pending" 1 "ten-bob" "Bob"
                 "bob@example.org" "555-0101" None (Some 1).
Definition eves_application : Application.t :=
  Application.mk 2 (JSDate.utc 2023 0 20) "Pending" 1 "ten-eve" "Eve"
                 "eve@example.org" "555-0102" (Some "Hello") None.

Definition sample_tables : Tables :=
  mkTables [ann] [bob; eve] [main_street] [flat] [lease1; lease2]
           [bobs_application; eves_application].
Definition sample_sequences : Sequences := mkSequences 2 2 3 3.
Definition sample : World := mkWorld sample_tables sample_sequences 0.

(** 2023-03-20, 12:00 UTC. *)
Definition noon : Z := JSDate.utc 2023 2 20 + 12 * 3600000.

(** An object storage that stores every file. *)
Definition store (now : Z) (f : Properties.File) : Outcome string :=
  Returned ("https://bucket.example.org/properties/" +:+
            Properties.originalname f).

(** A geocoding service that finds no place. *)
Definition nowhere (street city country postalcode : string)
  : Outcome (list Properties.GeoResult) := Returned [].

(** A geocoding service whose answer names a place without coordinates. *)
Definition no_coordinates (street city country postalcode : string)
  : Outcome (list Properties.GeoResult) :=
  Returned [Properties.mkGeoResult None (Some "39.78")].

(** An ORM that refuses a row with a number that is NaN. *)
Definition refuse_nan (p : Property.t) : option string :=
  if num_is_nan (Property.pricePerMonth p)
     || num_is_nan (Property.securityDeposit p)
     || num_is_nan (Property.applicationFee p)
     || num_is_nan (Property.beds p) || num_is_nan (Property.baths p)
     || num_is_nan (Property.squareFeet p)
  then Some "Argument is missing or not a number" else None.

Definition photo : Properties.File :=
  Properties.mkFile "front.jpg" "JFIF" "image/jpeg".

(** A form whose price is 1200 followed by letters. *)
Definition form : Properties.Body :=
  Properties.mkBody "2 Oak Avenue" "Springfield" "IL" "USA" "62702" "mgr-ann"
    {[ "name" := "House"; "pricePerMonth" := "1200abc";
       "securityDeposit" := "2400"; "applicationFee" := "40";
       "beds" := "3"; "baths" := "1.5"; "squareFeet" := "1100";
       "isPetsAllowed" := "true"; "amenities" := "WiFi,Pool" ]}.

(** Eve applies for the flat; she is the tenant of identifier 2. *)
Definition eves_request : Applications.ApplicationBody :=
  Applications.mkApplicationBody
    (VStr "2023-03-20") (VStr "Pending") (VNum (Dec false 1 0))
    (VNum (Dec false 2 0)) (VStr "Eve") (VStr "eve@example.org")
    (VStr "555-0102") VUndefined.

(** What listApplications answers for the sample, asked by nobody. *)
Definition sample_list : list Applications.Formatted :=
  match snd (Applications.listApplications None 0 noon None None sample) with
  | Http.Json _ items => items
  | Http.Message _ _ => []
  end.

(** What listApplications answers for the sample, asked by Eve as a
    tenant. *)
Definition eves_list : list Applications.Formatted :=
  match snd (Applications.listApplications None 0 noon (Some "ten-eve")
               (Some "tenant") sample) with
  | Http.Json _ items => items
  | Http.Message _ _ => []
  end.

End Fixtures.

(** * Properties of the handlers *)

(** ** Facts about dates and the payment-date loop *)
Module JSDateFacts.
Import JSDate.
Local Open Scope Z_scope.

(** [YearFromDay] is the year of the standard: the one whose first day is
    not after [z] and whose successor starts after [z]. *)
Lemma YearFromDay_spec z :
  DayFromYear (YearFromDay z) <= z < DayFromYear (YearFromDay z + 1).
Proof.
  unfold YearFromDay, DayFromYear.
  split_ifs; Z.to_euclidean_division_equations; lia.
Qed.

Lemma DayFromYear_succ y : DayFromYear (y + 1) = DayFromYear y + DaysInYear y.
Proof.
  unfold DayFromYear, DaysInYear.
  split_ifs; Z.to_euclidean_division_equations; lia.
Qed.

Lemma DayFromYear_lt y y' : y < y' -> DayFromYear y < DayFromYear y'.
Proof.
  intros H. unfold DayFromYear. Z.to_euclidean_division_equations; lia.
Qed.

(** ... and it is the only such year, so it is the largest one that starts
    on or before [z]. *)
Lemma YearFromDay_unique z y :
  DayFromYear y <= z < DayFromYear (y + 1) -> YearFromDay z = y.
Proof.
  intros H. pose proof (YearFromDay_spec z) as S.
  destruct (Z.lt_trichotomy (YearFromDay z) y) as [L|[E|L]]; [|exact E|].
  - assert (DayFromYear (YearFromDay z + 1) <= DayFromYear y).
    { destruct (Z.eq_dec (YearFromDay z + 1) y) as [->|]; [lia|].
      apply Z.lt_le_incl, DayFromYear_lt; lia. }
    lia.
  - assert (DayFromYear (y + 1) <= DayFromYear (YearFromDay z)).
    { destruct (Z.eq_dec (y + 1) (YearFromDay z)) as [->|]; [lia|].
      apply Z.lt_le_incl, DayFromYear_lt; lia. }
    lia.
Qed.

Lemma DayWithinYear_bounds t :
  0 <= DayWithinYear t < DaysInYear (YearFromTime t).
Proof.
  unfold DayWithinYear, YearFromTime.
  pose proof (YearFromDay_spec (Day t)) as S.
  rewrite DayFromYear_succ in S. lia.
Qed.

Lemma DaysInYear_cases y : DaysInYear y = 365 \/ DaysInYear y = 366.
Proof. unfold DaysInYear. split_ifs; auto. Qed.

(** The same day of the following month is 28 to 31 days later (a day the
    following month lacks overflows into the month after it). *)
Lemma MakeDay_next_month t :
  28 <= MakeDay (YearFromTime t) (MonthFromTime t + 1) (DateFromTime t) - Day t <= 31.
Proof.
  pose proof (DayWithinYear_bounds t) as B.
  pose proof (DayFromYear_succ (YearFromTime t)) as Y.
  unfold DateFromTime, MonthFromTime, InLeapYear, MakeDay in *.
  unfold DayWithinYear in *.
  set (y := YearFromTime t) in *.
  set (dy := DayFromYear y) in *.
  destruct (DaysInYear_cases y) as [E|E]; rewrite E in *;
    simpl (_ =? _) in *; cbv iota in *;
    repeat match goal with
           | |- context [if ?a <? ?b then _ else _] => destruct (Z.ltb_spec a b)
           end;
    match goal with
    | |- context [(?m + 1) / 12] =>
        let q := eval cbv in ((m + 1) / 12) in
        let r := eval cbv in ((m + 1) mod 12) in
        change ((m + 1) / 12) with q; change ((m + 1) mod 12) with r
    end;
    rewrite ?Z.add_0_r; fold dy; rewrite ?E, ?Y, ?E;
    cbn [MonthStart Z.eqb Pos.eqb]; lia.
Qed.

Section Loop.
Variable tza : Z.

Lemma nextMonth_days t :
  nextMonth tza t - t =
  (MakeDay (YearFromTime (t + tza)) (MonthFromTime (t + tza) + 1)
           (DateFromTime (t + tza)) - Day (t + tza)) * msPerDay.
Proof.
  unfold nextMonth, withMonth, UTC, LocalTime, MakeDate, TimeWithinDay, Day.
  pose proof (Z.div_mod (t + tza) msPerDay) as D.
  unfold msPerDay in *. lia.
Qed.

Lemma nextMonth_bounds t :
  t + 28 * msPerDay <= nextMonth tza t <= t + 31 * msPerDay.
Proof.
  pose proof (nextMonth_days t) as D.
  pose proof (MakeDay_next_month (t + tza)) as M.
  unfold msPerDay in *. lia.
Qed.

Lemma addMonth_Some t : addMonth tza (Some t) = TimeClip (nextMonth tza t).
Proof. unfold addMonth, nextMonth. cbn [getMonth option_map setMonth]. reflexivity. Qed.

Lemma advance_invalid fuel today : advance tza fuel today None = Some None.
Proof. destruct fuel; reflexivity. Qed.

(** The loop ends within the fuel it is given, whatever the start. *)
Lemma advance_terminates fuel today start :
  today - start < Z.of_nat fuel * (28 * msPerDay) ->
  exists d, advance tza fuel (Some today) (Some start) = Some d.
Proof.
  revert start. induction fuel as [|fuel IH]; intros start H.
  - simpl. destruct (Z.leb_spec start today); [lia | eauto].
  - cbn [advance date_le]. destruct (Z.leb_spec start today) as [L|L]; [|eauto].
    rewrite addMonth_Some. unfold TimeClip.
    destruct (Z.abs _ <=? maxTime).
    + apply IH. pose proof (nextMonth_bounds start). lia.
    + rewrite advance_invalid. eauto.
Qed.

Lemma turns_enough today start :
  today - start < Z.of_nat (turns today start) * (28 * msPerDay).
Proof.
  unfold turns.
  destruct (Z.lt_ge_cases (today - start) 0) as [N|N].
  - unfold msPerDay. lia.
  - rewrite Nat2Z.inj_add, Z2Nat.id by (apply Z.div_pos; unfold msPerDay; lia).
    pose proof (Z.div_mod (today - start) (28 * msPerDay)) as D.
    pose proof (Z.mod_pos_bound (today - start) (28 * msPerDay)) as B.
    unfold msPerDay in *. lia.
Qed.

(** The loop of calculateNextPaymentDate ends within the turns it is
    given. *)
Lemma calculateNextPaymentDate_ends today start :
  exists d, advance tza (turns today start) (Some today) (Some start) = Some d.
Proof. apply advance_terminates, turns_enough. Qed.

(** What the loop returns, for dates the Date type can hold: the first
    monthly step of [start] after [today]. *)
Lemma advance_result fuel today start :
  - maxTime <= start ->
  today + 31 * msPerDay <= maxTime ->
  today - start < Z.of_nat fuel * (28 * msPerDay) ->
  exists (k : nat) (r : Z),
    advance tza fuel (Some today) (Some start) = Some (Some r) /\
    today < r /\
    r = Nat.iter k (nextMonth tza) start /\
    (forall j, (j < k)%nat -> Nat.iter j (nextMonth tza) start <= today) /\
    (start <= today -> (1 <= k)%nat).
Proof.
  intros Hlo Hhi. revert start Hlo.
  induction fuel as [|fuel IH]; intros start Hlo H.
  - exists 0%nat, start. cbn [advance date_le Nat.iter nat_rect].
    destruct (Z.leb_spec start today) as [L|L]; [lia|].
    split; [reflexivity|]. split; [exact L|]. split; [reflexivity|].
    split; [intros j Hj; lia | intros; lia].
  - cbn [advance date_le]. destruct (Z.leb_spec start today) as [L|L].
    + rewrite addMonth_Some. unfold TimeClip.
      pose proof (nextMonth_bounds start) as B.
      assert (C : Z.abs (nextMonth tza start) <= maxTime).
      { unfold msPerDay, maxTime in *. lia. }
      apply Z.leb_le in C. rewrite C. clear C.
      destruct (IH (nextMonth tza start)) as (k & r & E & F & I & P & _).
      { unfold msPerDay, maxTime in *. lia. }
      { unfold msPerDay in *. lia. }
      exists (S k), r. rewrite E.
      split; [reflexivity|]. split; [exact F|].
      split; [rewrite Nat.iter_succ_r; exact I|].
      split; [|intros _; lia].
      intros [|j] Hj; [exact L|]. rewrite Nat.iter_succ_r. apply P. lia.
    + exists 0%nat, start.
      split; [reflexivity|]. split; [exact L|]. split; [reflexivity|].
      split; [intros j Hj; lia | intros; lia].
Qed.
End Loop.



End JSDateFacts.

(** ** More facts about dates: the year of a lease and the day of payment *)
Module JSDateMore.
Import JSDate JSDateFacts.
Local Open Scope Z_scope.

Lemma TimeWithinDay_bounds t : 0 <= TimeWithinDay t < msPerDay.
Proof. unfold TimeWithinDay, msPerDay. apply Z.mod_pos_bound. lia. Qed.

Lemma Day_MakeDate day time :
  0 <= time < msPerDay -> Day (MakeDate day time) = day.
Proof.
  intros H. unfold Day, MakeDate.
  rewrite Z.add_comm, Z.div_add by (unfold msPerDay; lia).
  rewrite Z.div_small by exact H. reflexivity.
Qed.

Lemma TimeWithinDay_MakeDate day time :
  0 <= time < msPerDay -> TimeWithinDay (MakeDate day time) = time.
Proof.
  intros H. unfold TimeWithinDay, MakeDate.
  rewrite Z.add_comm, Z.mod_add by (unfold msPerDay; lia).
  apply Z.mod_small, H.
Qed.

Lemma MonthFromTime_range t : 0 <= MonthFromTime t <= 11.
Proof. unfold MonthFromTime. split_ifs; lia. Qed.

(** The same day and month of the following year is 365 or 366 days
    later. *)
Lemma MakeDay_next_year t :
  MakeDay (YearFromTime t + 1) (MonthFromTime t) (DateFromTime t) - Day t = 365
  \/ MakeDay (YearFromTime t + 1) (MonthFromTime t) (DateFromTime t) - Day t
     = 366.
Proof.
  pose proof (DayWithinYear_bounds t) as B.
  pose proof (DayFromYear_succ (YearFromTime t)) as Y.
  unfold DateFromTime, MonthFromTime, InLeapYear, MakeDay in *.
  unfold DayWithinYear in *.
  set (y := YearFromTime t) in *.
  set (dy := DayFromYear y) in *.
  destruct (DaysInYear_cases y) as [E|E];
    destruct (DaysInYear_cases (y + 1)) as [E'|E']; rewrite E in *;
    simpl (_ =? _) in *; cbv iota in *;
    repeat match goal with
           | |- context [if ?a <? ?b then _ else _] => destruct (Z.ltb_spec a b)
           end;
    match goal with
    | |- context [?m / 12] =>
        let q := eval cbv in (m / 12) in
        let r := eval cbv in (m mod 12) in
        change (m / 12) with q; change (m mod 12) with r
    end;
    rewrite ?Z.add_0_r, ?E', ?Y, ?E; cbn [MonthStart Z.eqb Pos.eqb]; lia.
Qed.

(** A day up to the 28th exists in every month: the time made of it is
    read back as the same year, month and day. *)
Lemma civil_of_MakeDay y m d t :
  0 <= m <= 11 -> 1 <= d <= 28 ->
  Day t = MakeDay y m d ->
  YearFromTime t = y /\ MonthFromTime t = m /\ DateFromTime t = d.
Proof.
  intros Hm Hd E. unfold MakeDay in E.
  rewrite (Z.div_small m 12), (Z.mod_small m 12), Z.add_0_r in E by lia.
  assert (Hy : YearFromTime t = y).
  { unfold YearFromTime. apply YearFromDay_unique. rewrite DayFromYear_succ, E.
    destruct (DaysInYear_cases y) as [L|L]; rewrite L; simpl (_ =? _);
      cbv iota;
      assert (m = 0 \/ m = 1 \/ m = 2 \/ m = 3 \/ m = 4 \/ m = 5 \/ m = 6
              \/ m = 7 \/ m = 8 \/ m = 9 \/ m = 10 \/ m = 11) as C by lia;
      repeat destruct C as [C|C]; subst m; cbn [MonthStart]; lia. }
  unfold DateFromTime, MonthFromTime, InLeapYear, DayWithinYear.
  rewrite Hy, E.
  destruct (DaysInYear_cases y) as [L|L]; rewrite L; simpl (_ =? _);
    cbv iota;
    assert (m = 0 \/ m = 1 \/ m = 2 \/ m = 3 \/ m = 4 \/ m = 5 \/ m = 6
            \/ m = 7 \/ m = 8 \/ m = 9 \/ m = 10 \/ m = 11) as C by lia;
    repeat destruct C as [C|C]; subst m; cbn [MonthStart];
    (split; [reflexivity|]);
    repeat match goal with
           | |- context [if ?a <? ?b then _ else _] =>
               destruct (Z.ltb_spec a b); try lia
           end; cbn [MonthStart]; split; lia.
Qed.

Lemma MakeDay_carry y d : MakeDay y 12 d = MakeDay (y + 1) 0 d.
Proof.
  unfold MakeDay. change (12 / 12) with 1. change (12 mod 12) with 0.
  change (0 / 12) with 0. change (0 mod 12) with 0.
  rewrite !Z.add_0_r. reflexivity.
Qed.

Section Local.
Variable tza : Z.

(** A month later the day of the month (up to the 28th) and the time of
    day are the same. *)
Lemma nextMonth_keeps_day t :
  1 <= DateFromTime (t + tza) <= 28 ->
  DateFromTime (nextMonth tza t + tza) = DateFromTime (t + tza)
  /\ TimeWithinDay (nextMonth tza t + tza) = TimeWithinDay (t + tza).
Proof.
  intros Hd. unfold nextMonth, withMonth, UTC, LocalTime.
  set (lt := t + tza) in *.
  replace (MakeDate _ _ - tza + tza)
    with (MakeDate (MakeDay (YearFromTime lt) (MonthFromTime lt + 1)
                            (DateFromTime lt)) (TimeWithinDay lt)) by lia.
  pose proof (TimeWithinDay_bounds lt) as Bt.
  split; [|apply TimeWithinDay_MakeDate, Bt].
  pose proof (MonthFromTime_range lt) as Hm.
  destruct (Z.eq_dec (MonthFromTime lt) 11) as [E|NE].
  - rewrite E. change (11 + 1) with 12.
    apply (civil_of_MakeDay (YearFromTime lt + 1) 0 (DateFromTime lt));
      [lia | exact Hd |].
    rewrite Day_MakeDate by exact Bt. apply MakeDay_carry.
  - apply (civil_of_MakeDay (YearFromTime lt) (MonthFromTime lt + 1)
             (DateFromTime lt)); [lia | exact Hd |].
    apply Day_MakeDate, Bt.
Qed.

Lemma iter_nextMonth_keeps_day (k : nat) t :
  1 <= DateFromTime (t + tza) <= 28 ->
  DateFromTime (Nat.iter k (nextMonth tza) t + tza) = DateFromTime (t + tza)
  /\ TimeWithinDay (Nat.iter k (nextMonth tza) t + tza)
     = TimeWithinDay (t + tza).
Proof.
  intros Hd. induction k as [|k [IH1 IH2]]; [split; reflexivity|].
  cbn [Nat.iter nat_rect].
  change (nat_rect (fun _ => Z) t (fun _ => nextMonth tza) k)
    with (Nat.iter k (nextMonth tza) t).
  destruct (nextMonth_keeps_day (Nat.iter k (nextMonth tza) t)) as [H1 H2];
    [rewrite IH1; exact Hd|].
  rewrite H1, H2, IH1, IH2. split; reflexivity.
Qed.

Lemma DateFromTime_positive t : 1 <= DateFromTime t.
Proof.
  pose proof (DayWithinYear_bounds t) as B.
  unfold DateFromTime, MonthFromTime, InLeapYear in *.
  destruct (DaysInYear_cases (YearFromTime t)) as [E|E]; rewrite E in *;
    simpl (_ =? _); cbv iota;
    repeat match goal with
           | |- context [if ?a <? ?b then _ else _] => destruct (Z.ltb_spec a b)
           end; cbn [MonthStart]; lia.
Qed.
End Local.





End JSDateMore.

(** ** Facts about the authorization middleware *)
Module AuthFacts.
Import JS Auth.

(** A list of lower-case roles holds the lower-cased role exactly when it
    holds the role up to case. *)
Lemma lower_list_ignores_case (allowed : list string) role :
  Forall (fun a => toLowerCase a = a) allowed ->
  toLowerCase role ∈ allowed <->
  exists a, a ∈ allowed /\ same_ignoring_case a role.
Proof.
  intros L. split.
  - intros H. exists (toLowerCase role). split; [exact H|].
    unfold same_ignoring_case. rewrite Forall_forall in L. apply L, H.
  - intros (a & Ha & E). unfold same_ignoring_case in E.
    rewrite Forall_forall in L. rewrite <- E, (L a Ha). exact Ha.
Qed.




End AuthFacts.

(** ** More facts about the authorization middleware and the routers *)
Module AuthMore.
Import JS Auth.

(** The outcome for a token with a readable role. *)
Lemma authMiddleware_outcome jwt_decode allowed authorization token role :
  bearerToken authorization = Some token ->
  token <> EmptyString ->
  role_claim (jwt_decode token) = Some role ->
  authMiddleware jwt_decode allowed authorization
  = mkResult
      (Some (mkUser (default VUndefined (property (jwt_decode token) "sub"))
                    (VStr role)))
      (if bool_decide (toLowerCase role ∈ allowed)
       then Next else Respond 403 "Forbidden").
Proof.
  intros Htok Hne. unfold authMiddleware, role_claim. rewrite Htok.
  destruct (String.eqb_spec token "") as [E|_]; [contradiction|].
  destruct (jwt_decode token) as [| |payload|claims]; cbn [property];
    try discriminate; cbv zeta;
    (destruct (or_empty _); try discriminate);
    intros [= ->]; cbn [lowered default]; destruct (bool_decide _); reflexivity.
Qed.

(** The outcome for a token with no readable role. *)
Lemma authMiddleware_unreadable jwt_decode allowed authorization token :
  bearerToken authorization = Some token ->
  token <> EmptyString ->
  role_claim (jwt_decode token) = None ->
  outcome (authMiddleware jwt_decode allowed authorization)
  = Respond 400 "Invalid token".
Proof.
  intros Htok Hne. unfold authMiddleware, role_claim. rewrite Htok.
  destruct (String.eqb_spec token "") as [E|_]; [contradiction|].
  destruct (jwt_decode token) as [| |payload|claims]; cbn [property];
    try reflexivity; cbv zeta;
    (destruct (or_empty _); try discriminate); intros _; reflexivity.
Qed.

Lemma authMiddleware_no_token jwt_decode allowed authorization :
  bearerToken authorization = None \/ bearerToken authorization = Some "" ->
  authMiddleware jwt_decode allowed authorization
  = mkResult None (Respond 401 "Unauthorized").
Proof. unfold authMiddleware. intros [->| ->]; reflexivity. Qed.



(** X5. A request is answered 401 exactly when its Authorization header
    is absent or has no non-empty second word.  A request that is answered
    403 has a user attached all the same, and one answered 401 has none. *)
Theorem authMiddleware_rejections (jwt_decode : string -> Decoded)
    (allowed : list string) (authorization : option string) :
  let result := authMiddleware jwt_decode allowed authorization in
  (outcome result = Respond 401 "Unauthorized"
   <-> bearerToken authorization = None
       \/ bearerToken authorization = Some "")
  /\ (outcome result = Respond 401 "Unauthorized" -> user result = None)
  /\ (outcome result = Respond 403 "Forbidden" -> is_Some (user result))
  /\ (outcome result = Next
      \/ outcome result = Respond 401 "Unauthorized"
      \/ outcome result = Respond 400 "Invalid token"
      \/ outcome result = Respond 403 "Forbidden").
Proof.
  cbv zeta.
  destruct (bearerToken authorization) as [token|] eqn:T.
  2:{ rewrite authMiddleware_no_token by auto. cbn [outcome user].
      repeat split; auto; discriminate. }
  destruct (String.eqb_spec token "") as [->|Hne].
  { rewrite authMiddleware_no_token by auto. cbn [outcome user].
    repeat split; auto; discriminate. }
  destruct (role_claim (jwt_decode token)) as [role|] eqn:R.
  - rewrite (authMiddleware_outcome _ _ _ token role) by auto.
    cbn [outcome user]. destruct (bool_decide _).
    + repeat split; eauto; try discriminate. intros [?|[= ?]]; congruence.
    + repeat split; eauto 6; try discriminate. intros [?|[= ?]]; congruence.
  - rewrite (authMiddleware_unreadable _ _ _ token) by auto.
    repeat split; eauto 6; try discriminate. intros [?|[= ?]]; congruence.
Qed.

(** X6. The case of the letters of the role in a token does not matter:
    two tokens whose roles differ only in case are given the same outcome
    by the same allow-list. *)
Theorem authMiddleware_role_case (jwt_decode : string -> Decoded)
    (allowed : list string) (authorization authorization' : option string)
    (token token' role role' : string) :
  bearerToken authorization = Some token -> token <> EmptyString ->
  bearerToken authorization' = Some token' -> token' <> EmptyString ->
  role_claim (jwt_decode token) = Some role ->
  role_claim (jwt_decode token') = Some role' ->
  same_ignoring_case role role' ->
  outcome (authMiddleware jwt_decode allowed authorization)
  = outcome (authMiddleware jwt_decode allowed authorization').
Proof.
  intros T N T' N' R R' S.
  rewrite (authMiddleware_outcome _ _ _ token role),
    (authMiddleware_outcome _ _ _ token' role') by auto.
  cbn [outcome]. unfold same_ignoring_case in S. rewrite S. reflexivity.
Qed.

Lemma authMiddleware_role_case_witness :
  outcome (authMiddleware Fixtures.decode_sample ["manager"]
             (Some "Bearer ann.manager"))
  = outcome (authMiddleware Fixtures.decode_sample ["manager"]
               (Some "Bearer ann.Manager")).
Proof.
  apply (authMiddleware_role_case Fixtures.decode_sample ["manager"]
           (Some "Bearer ann.manager") (Some "Bearer ann.Manager")
           "ann.manager" "ann.Manager" "manager" "Manager");
    solve [reflexivity | discriminate | vm_compute; reflexivity].
Defined.

End AuthMore.

(** ** Facts about the property search *)
Module PropertyQueryFacts.
Import JS Http PropertyQuery.

Section Builder.
Variable parseDate : string -> JSDate.Date.
Variable Row : Type.
Variable queryRaw : list Condition -> string + list Row.

Lemma Forall_when {A : Type} (P : A -> Prop) (b : bool) (l : list A) :
  (b = true -> Forall P l) -> Forall P (when b l).
Proof. destruct b; intros H; [apply H; reflexivity | constructor]. Qed.

(** A parameter that is absent is used by no condition. *)
Lemma whereConditions_absent (q : Params) (p : Param) :
  get p q = None ->
  Forall (fun c => uses p c = false) (whereConditions parseDate q).
Proof.
  intros H. unfold whereConditions.
  repeat (apply Forall_app; split); apply Forall_when; intros T;
    try match goal with
        | |- Forall _ (match ?d with Some _ => _ | None => _ end) =>
            destruct d; [|constructor]
        end;
    repeat constructor;
    destruct p; try reflexivity; simpl in H; rewrite H in T;
    try discriminate T; rewrite ?andb_false_r in T; discriminate T.
Qed.

Lemma all_absent (q : Params) : (forall p, get p q = None) -> q = noParams.
Proof.
  intros H. destruct q.
  pose proof (H PFavoriteIds); pose proof (H PPriceMin);
  pose proof (H PPriceMax); pose proof (H PBeds); pose proof (H PBaths);
  pose proof (H PPropertyType); pose proof (H PSquareFeetMin);
  pose proof (H PSquareFeetMax); pose proof (H PAmenities);
  pose proof (H PAvailableFrom); pose proof (H PLatitude);
  pose proof (H PLongitude). simpl in *. subst. reflexivity.
Qed.
End Builder.

(** C4. A filter parameter that is left unset contributes no condition to
    the query, whatever the other parameters are; and with every parameter
    unset the list of conditions is empty, so the request sends the query
    without a WHERE clause and answers what that query answers. *)
Theorem getProperties_unset (parseDate : string -> JSDate.Date) (Row : Type)
    (queryRaw : list Condition -> string + list Row) (q : Params) (p : Param) :
  get p q = None ->
  Forall (fun c => uses p c = false) (whereConditions parseDate q)
  /\ ((forall p', get p' q = None) <-> q = noParams)
  /\ whereConditions parseDate noParams = []
  /\ getProperties parseDate Row queryRaw noParams
     = respond Row (queryRaw unfiltered).
Proof.
  intros H. split; [apply whereConditions_absent, H|].
  split; [|split; reflexivity].
  split; [apply all_absent | intros -> p'; destruct p'; reflexivity].
Qed.

Lemma getProperties_unset_witness :
  Forall (fun c => uses PPriceMax c = false)
         (whereConditions Fixtures.parse_epoch Fixtures.price_only)
  /\ ((forall p', get p' Fixtures.price_only = None)
      <-> Fixtures.price_only = noParams)
  /\ whereConditions Fixtures.parse_epoch noParams = []
  /\ getProperties Fixtures.parse_epoch nat Fixtures.no_rows noParams
     = respond nat (Fixtures.no_rows unfiltered).
Proof.
  apply (getProperties_unset Fixtures.parse_epoch nat Fixtures.no_rows
           Fixtures.price_only PPriceMax).
  reflexivity.
Defined.

End PropertyQueryFacts.

(** ** More facts about the property search *)
Module PropertyQueryMore.
Import JS Http PropertyQuery.

Lemma In_when {A : Type} (b : bool) (l : list A) (x : A) :
  In x (when b l) -> b = true /\ In x l.
Proof. destruct b; [auto | contradiction]. Qed.

Lemma count_when (p : Param) (b : bool) (l : list Condition) :
  (length (List.filter (uses p) (when b l))
   <= length (List.filter (uses p) l))%nat.
Proof. destruct b; [reflexivity | apply Nat.le_0_l]. Qed.

Lemma given_not_any_true (v : option string) :
  given_not_any v = true -> param_truthy v = true /\ v <> Some "any".
Proof.
  unfold given_not_any. intros H. apply andb_true_iff in H as [T N].
  split; [exact T|]. intros ->. discriminate N.
Qed.

(** X9. Every condition of the query comes from parameters that are set
    to a non-empty string, and for beds, baths, propertyType and amenities
    not to "any"; a condition of proximity needs both latitude and
    longitude and always has the radius of 1000 km in degrees, whatever the
    request says; and no parameter contributes more than one condition. *)
Theorem whereConditions_sound (parseDate : string -> JSDate.Date)
    (q : Params) :
  (forall c p,
     In c (whereConditions parseDate q) -> uses p c = true ->
     param_truthy (get p q) = true
     /\ (In p [PBeds; PBaths; PPropertyType; PAmenities] ->
         get p q <> Some "any"))
  /\ (forall lon lat d,
        In (Within lon lat d) (whereConditions parseDate q) ->
        d = degrees
        /\ param_truthy (latitude q) = true
        /\ param_truthy (longitude q) = true)
  /\ (forall p,
        (length (List.filter (uses p) (whereConditions parseDate q)) <= 1)%nat).
Proof.
  split; [|split].
  - intros c p H U. unfold whereConditions in H.
    repeat (apply in_app_or in H as [H|H]); apply In_when in H as [T H];
      try (destruct (parseDate _); [|contradiction]);
      (destruct H as [<-|[]]);
      destruct p; try discriminate U; cbn [get];
      try (apply given_not_any_true in T as [T N]);
      try (apply andb_true_iff in T as [T1 T2]);
      (split; [assumption|]); intros I; cbn in I;
      repeat (destruct I as [I|I]; try discriminate I); try contradiction;
      assumption.
  - intros lon lat d H. unfold whereConditions in H.
    repeat (apply in_app_or in H as [H|H]); apply In_when in H as [T H];
      try (destruct (parseDate _); [|contradiction]);
      (destruct H as [H|[]]); try discriminate H.
    injection H as _ _ <-. apply andb_true_iff in T as [T1 T2]. auto.
  - intros p. unfold whereConditions.
    rewrite !List.filter_app, !length_app.
    repeat match goal with
           | |- context [length (List.filter ?f (when ?b ?l))] =>
               let H := fresh "H" in
               pose proof (count_when p b l) as H;
               generalize dependent (length (List.filter f (when b l)));
               intros
           end.
    destruct (parseDate _); destruct p; cbn [List.filter] in *;
      unfold uses in *; cbn [built_from] in *;
      repeat match goal with
             | H : context [bool_decide ?P] |- _ =>
                 let v := eval vm_compute in (bool_decide P) in
                 change (bool_decide P) with v in H
             end;
      cbn [length] in *; lia.
Qed.

End PropertyQueryMore.

(** ** Facts about the database and the computations on it *)
Module DbFacts.
Import JS Http Db Prisma.
Local Open Scope Z_scope.

(** *** What a computation does to the tables *)

Section Maintains.
Variable R : Tables -> Tables -> Prop.
Hypothesis R_refl : forall t, R t t.
Hypothesis R_trans : forall a b c, R a b -> R b c -> R a c.

Lemma maintains_ret {A : Type} (a : A) : maintains R (ret a).
Proof. intros w. apply R_refl. Qed.

Lemma maintains_throw {A : Type} (m : string) : maintains R (@throw A m).
Proof. intros w. apply R_refl. Qed.

Lemma maintains_bind {A B : Type} (c : Async A) (k : A -> Async B) :
  maintains R c -> (forall a, maintains R (k a)) -> maintains R (bind c k).
Proof.
  intros Hc Hk w. unfold bind. specialize (Hc w).
  destruct (c w) as [w' [a|m]]; simpl in *.
  - eapply R_trans; [exact Hc | apply Hk].
  - exact Hc.
Qed.

Lemma maintains_call {A : Type} (failing : option nat) (op : Operation A) :
  (forall t s, R t (fst (fst (op t s)))) -> maintains R (call failing op).
Proof.
  intros Hop w. unfold call. destruct (bool_decide _); simpl.
  - apply R_refl.
  - specialize (Hop (tables w) (sequences w)).
    destruct (op (tables w) (sequences w)) as [[t s] r]. exact Hop.
Qed.

Lemma maintains_handler {A : Type} (label : string)
    (body : Async (Response A)) (w : World) :
  maintains R body -> R (tables w) (tables (fst (handler label body w))).
Proof.
  intros Hb. unfold handler. specialize (Hb w).
  destruct (body w) as [w' [r|m]]; exact Hb.
Qed.
End Maintains.

Lemma call_returns {A : Type} (op : Operation A) (w : World) t s r :
  op (tables w) (sequences w) = (t, s, r) ->
  call None op w = (mkWorld t s (S (calls w)), r).
Proof. intros E. unfold call. cbn [bool_decide decide_rel]. rewrite E. reflexivity. Qed.

Lemma find_after_update {A : Type} (key : A -> Z) (f : A -> A) (n q : Z)
    (l : list A) :
  (forall a, key (f a) = key a) ->
  List.find (fun a => key a =? q)
            (map (fun a => if key a =? n then f a else a) l)
  = option_map (fun a => if key a =? n then f a else a)
               (List.find (fun a => key a =? q) l).
Proof.
  intros K. induction l as [|a l IH]; [reflexivity|].
  simpl.
  replace (key (if key a =? n then f a else a)) with (key a)
    by (destruct (key a =? n); [symmetry; apply K | reflexivity]).
  destruct (key a =? q); [reflexivity | exact IH].
Qed.

Lemma find_found {A : Type} (p : A -> bool) (l : list A) (a : A) :
  List.find p l = Some a -> p a = true.
Proof. intros H. apply (List.find_some _ _ H). Qed.

(** A row appended with an identifier no earlier row has is the row of
    that identifier. *)
Lemma find_appended {A : Type} (key : A -> Z) (l : list A) (x : A) :
  (forall a, In a l -> key a < key x) ->
  List.find (fun a => key a =? key x) (l ++ [x]) = Some x.
Proof.
  intros H. induction l as [|a l IH]; simpl.
  - rewrite Z.eqb_refl. reflexivity.
  - destruct (Z.eqb_spec (key a) (key x)) as [E|_].
    + specialize (H a (or_introl eq_refl)). lia.
    + apply IH. intros b Hb. apply H. right. exact Hb.
Qed.

(** *** What integrity gives *)

Lemma integrity_application t s a :
  integrity t s = true -> In a (applications t) ->
  is_Some (find_property t (Application.propertyId a))
  /\ is_Some (find_tenant t (Application.tenantCognitoId a))
  /\ (forall k, Application.leaseId a = Some k -> is_Some (find_lease t k)).
Proof.
  unfold integrity. rewrite !andb_true_iff, !forallb_forall.
  intros [[[H _] _] _] Ha. specialize (H a Ha).
  rewrite !andb_true_iff in H. destruct H as [[H1 H2] H3].
  apply bool_decide_eq_true in H1, H2. repeat split; auto.
  intros k E. rewrite E in H3. apply bool_decide_eq_true in H3. exact H3.
Qed.

Lemma integrity_lease t s l :
  integrity t s = true -> In l (leases t) -> Lease.id l < nextLeaseId s.
Proof.
  unfold integrity. rewrite !andb_true_iff, !forallb_forall.
  intros [[_ H] _] Hl. apply Z.ltb_lt, H, Hl.
Qed.

Lemma integrity_location t s p :
  integrity t s = true -> In p (properties t) ->
  is_Some (find_location t (Property.locationId p)).
Proof.
  unfold integrity. rewrite !andb_true_iff, !forallb_forall.
  intros [[[_ H] _] _] Hp. specialize (H p Hp).
  apply bool_decide_eq_true in H. exact H.
Qed.

Lemma integrity_location_id t s l :
  integrity t s = true -> In l (locations t) ->
  Location.id l < nextLocationId s.
Proof.
  unfold integrity. rewrite !andb_true_iff, !forallb_forall.
  intros [_ H] Hl. apply Z.ltb_lt, H, Hl.
Qed.

Lemma find_in {A : Type} (f : A -> bool) (l : list A) (a : A) :
  List.find f l = Some a -> In a l.
Proof. intros H. apply (List.find_some _ _ H). Qed.

Lemma transaction_rolls_back {A : Type} (body : Async A) (w : World) :
  match transaction body w with
  | (w', Threw _) => tables w' = tables w
  | (w', Returned a) => body w = (w', Returned a)
  end.
Proof.
  unfold transaction. destruct (body w) as [w' [a|m]]; reflexivity.
Qed.

Lemma mapM_returns {A B : Type} (f : A -> Async B)
    (Q : Tables -> A -> B -> Prop) :
  (forall a w w' b, f a w = (w', Returned b) ->
                    tables w' = tables w /\ Q (tables w) a b) ->
  forall l w w' bs,
    mapM f l w = (w', Returned bs) ->
    tables w' = tables w /\ Forall2 (Q (tables w)) l bs.
Proof.
  intros Hf. induction l as [|a l IH]; intros w w' bs; cbn [mapM].
  - intros [= <- <-]. split; [reflexivity | constructor].
  - unfold bind at 1. destruct (f a w) as [w1 [b|m]] eqn:E1; [|discriminate].
    unfold bind at 1. destruct (mapM f l w1) as [w2 [bs'|m]] eqn:E2;
      [|discriminate].
    intros [= <- <-]. destruct (Hf _ _ _ _ E1) as [T1 Q1].
    destruct (IH _ _ _ E2) as [T2 Q2]. rewrite T1 in T2, Q2.
    split; [exact T2|]. constructor; assumption.
Qed.

Lemma mapM_runs {A B : Type} (f : A -> Async B) (t : Tables) (l : list A) :
  (forall a, In a l -> forall w, tables w = t ->
             exists b w', f a w = (w', Returned b) /\ tables w' = t) ->
  forall w, tables w = t ->
            exists bs w', mapM f l w = (w', Returned bs).
Proof.
  induction l as [|a l IH]; intros Hf w Hw; cbn [mapM].
  - eexists _, _. reflexivity.
  - destruct (Hf a (or_introl eq_refl) w Hw) as (b & w1 & E1 & T1).
    destruct (IH (fun x Hx => Hf x (or_intror Hx)) w1 T1) as (bs & w2 & E2).
    unfold bind. rewrite E1, E2. eexists _, _. reflexivity.
Qed.

End DbFacts.

(** ** More facts about database calls *)
Module DbMore.
Import JS Db Prisma.
Local Open Scope Z_scope.

Lemma call_fails {A : Type} (failing : option nat) (op : Operation A)
    (w : World) :
  failing = Some (calls w) ->
  call failing op w
  = (mkWorld (tables w) (sequences w) (S (calls w)),
     Threw "the database call failed").
Proof.
  intros F. unfold call.
  destruct (bool_decide_reflect (failing = Some (calls w))); [reflexivity|].
  contradiction.
Qed.

Lemma call_runs {A : Type} (failing : option nat) (op : Operation A)
    (w : World) t s r :
  failing <> Some (calls w) ->
  op (tables w) (sequences w) = (t, s, r) ->
  call failing op w = (mkWorld t s (S (calls w)), r).
Proof.
  intros F E. unfold call.
  destruct (bool_decide_reflect (failing = Some (calls w))); [contradiction|].
  rewrite E. reflexivity.
Qed.

Lemma filter_appended {A : Type} (key : A -> Z) (l : list A) (x : A) :
  (forall a, In a l -> key a < key x) ->
  List.filter (fun a => key a =? key x) (l ++ [x]) = [x].
Proof.
  intros H. induction l as [|a l IH]; simpl.
  - rewrite Z.eqb_refl. reflexivity.
  - destruct (Z.eqb_spec (key a) (key x)) as [E|_].
    + specialize (H a (or_introl eq_refl)). lia.
    + apply IH. intros b Hb. apply H. right. exact Hb.
Qed.

End DbMore.

(** ** The handlers keep the database consistent *)
Module InvariantFacts.
Import JS Http Db Prisma Invariant.
Local Open Scope Z_scope.

Lemma consistent_iff (t : Tables) (s : Sequences) :
  consistent t s = true <-> Consistent t s.
Proof.
  unfold consistent, integrity, issued, referenced.
  rewrite !andb_true_iff, !forallb_forall. split.
  - intros [[[[[A P] L] O] [I J]] R]. constructor.
    + intros a Ha. specialize (A a Ha).
      rewrite !andb_true_iff, !bool_decide_eq_true in A.
      destruct A as [[A1 A2] A3]. repeat split; [exact A1 | exact A2 |].
      intros k E. rewrite E in A3. apply bool_decide_eq_true in A3. exact A3.
    + intros p Hp. specialize (P p Hp). apply bool_decide_eq_true in P. exact P.
    + intros l Hl. specialize (L l Hl). lia.
    + intros l Hl. specialize (O l Hl). lia.
    + intros p Hp. specialize (I p Hp). lia.
    + intros a Ha. specialize (J a Ha). lia.
    + intros l Hl. specialize (R l Hl).
      rewrite andb_true_iff, !bool_decide_eq_true in R. exact R.
  - intros [A P L O I J R]. repeat split.
    + intros a Ha. destruct (A a Ha) as (A1 & A2 & A3).
      rewrite !andb_true_iff, !bool_decide_eq_true.
      repeat split; [exact A1 | exact A2 |].
      destruct (Application.leaseId a) as [k|]; [|reflexivity].
      apply bool_decide_eq_true. apply A3. reflexivity.
    + intros p Hp. apply bool_decide_eq_true. apply P. exact Hp.
    + intros l Hl. specialize (L l Hl). lia.
    + intros l Hl. specialize (O l Hl). lia.
    + intros p Hp. specialize (I p Hp). lia.
    + intros a Ha. specialize (J a Ha). lia.
    + intros l Hl. rewrite andb_true_iff, !bool_decide_eq_true.
      apply R. exact Hl.
Qed.

Lemma grows_refl (s : Sequences) : grows s s.
Proof. unfold grows. lia. Qed.

Lemma grows_trans (a b c : Sequences) : grows a b -> grows b c -> grows a c.
Proof. unfold grows. lia. Qed.

Lemma Consistent_grows (t : Tables) (s s' : Sequences) :
  Consistent t s -> grows s s' -> Consistent t s'.
Proof.
  intros [A P L O I J R] (G1 & G2 & G3 & G4). constructor; try assumption.
  - intros l Hl. specialize (L l Hl). lia.
  - intros l Hl. specialize (O l Hl). lia.
  - intros p Hp. specialize (I p Hp). lia.
  - intros a Ha. specialize (J a Ha). lia.
Qed.

(** *** Finding rows in a table that grew or was updated *)

Lemma find_is_Some_app {A : Type} (f : A -> bool) (l l' : list A) :
  is_Some (List.find f l) -> is_Some (List.find f (l ++ l')).
Proof.
  induction l as [|a l IH]; simpl.
  - intros [x E]. discriminate.
  - destruct (f a); [intros _; eexists; reflexivity | exact IH].
Qed.

Lemma find_is_Some_In {A : Type} (f : A -> bool) (l : list A) (x : A) :
  In x l -> f x = true -> is_Some (List.find f l).
Proof.
  induction l as [|a l IH]; simpl; [intros []|].
  intros [->|H] F.
  - rewrite F. eexists; reflexivity.
  - destruct (f a); [eexists; reflexivity | apply IH; assumption].
Qed.

Lemma find_is_Some_last {A : Type} (f : A -> bool) (l : list A) (x : A) :
  f x = true -> is_Some (List.find f (l ++ [x])).
Proof.
  intros F. apply (find_is_Some_In f _ x); [|exact F].
  apply in_or_app. right. left. reflexivity.
Qed.

Lemma find_is_Some_map {A : Type} (f : A -> bool) (g : A -> A) (l : list A) :
  (forall a, f (g a) = f a) ->
  is_Some (List.find f l) -> is_Some (List.find f (map g l)).
Proof.
  intros H. induction l as [|a l IH]; simpl; [trivial|].
  rewrite H. destruct (f a); [intros _; eexists; reflexivity | exact IH].
Qed.

Lemma find_Some_In {A : Type} (f : A -> bool) (l : list A) (x : A) :
  List.find f l = Some x -> In x l /\ f x = true.
Proof. apply List.find_some. Qed.

(** *** The combinators *)

Lemma preserved_ret {A : Type} (a : A) : preserved (ret a).
Proof. intros w C. split; [exact C | apply grows_refl]. Qed.

Lemma preserved_throw {A : Type} (m : string) : preserved (@throw A m).
Proof. intros w C. split; [exact C | apply grows_refl]. Qed.

Lemma preserved_lift {A : Type} (r : Outcome A) : preserved (lift r).
Proof. intros w C. split; [exact C | apply grows_refl]. Qed.

Lemma preserved_bind {A B : Type} (c : Async A) (k : A -> Async B) :
  preserved c -> (forall a, preserved (k a)) -> preserved (bind c k).
Proof.
  intros Hc Hk w C. unfold bind. specialize (Hc w C).
  destruct (c w) as [w' [a|m]]; cbn [fst] in *; [|exact Hc].
  destruct Hc as [C' G]. destruct (Hk a w' C') as [C'' G'].
  split; [exact C'' | eapply grows_trans; eassumption].
Qed.

Lemma preserved_call {A : Type} (failing : option nat) (op : Operation A) :
  preserving op -> preserved (call failing op).
Proof.
  intros H w C. unfold call. destruct (bool_decide _).
  - split; [exact C | apply grows_refl].
  - specialize (H _ _ C). destruct (op (tables w) (sequences w)) as [[t s] r].
    exact H.
Qed.

Lemma preserved_transaction {A : Type} (body : Async A) :
  preserved body -> preserved (transaction body).
Proof.
  intros H w C. unfold transaction. specialize (H w C).
  destruct (body w) as [w' [a|m]]; cbn [fst tables sequences] in *;
    [exact H|].
  destruct H as [_ G]. split; [|exact G].
  eapply Consistent_grows; eassumption.
Qed.

Lemma preserved_handler {A : Type} (label : string)
    (body : Async (Response A)) :
  preserved body -> preserved (handler label body).
Proof.
  intros H w C. unfold handler. specialize (H w C).
  destruct (body w) as [w' [a|m]]; exact H.
Qed.

Lemma preserved_mapM {A B : Type} (f : A -> Async B) (l : list A) :
  (forall a, preserved (f a)) -> preserved (mapM f l).
Proof.
  intros H. induction l as [|a l IH]; cbn [mapM].
  - apply preserved_ret.
  - apply preserved_bind; [apply H|]. intros b.
    apply preserved_bind; [exact IH|]. intros bs. apply preserved_ret.
Qed.

(** *** The operations *)

Lemma preserving_reads {A : Type} (op : Operation A) :
  (forall t s, fst (op t s) = (t, s)) -> preserving op.
Proof.
  intros H t s C. rewrite H. cbn [fst snd]. split; [exact C | apply grows_refl].
Qed.

Lemma preserving_application_findUnique id :
  preserving (application_findUnique id).
Proof.
  apply preserving_reads. intros t s. unfold application_findUnique.
  destruct (num_int id); reflexivity.
Qed.

Lemma preserving_property_findUnique id : preserving (property_findUnique id).
Proof.
  apply preserving_reads. intros t s. unfold property_findUnique.
  destruct (id_of id); reflexivity.
Qed.

Lemma preserving_application_findMany w :
  preserving (Applications.application_findMany w).
Proof. apply preserving_reads. reflexivity. Qed.

Lemma preserving_lease_findFirst c p :
  preserving (Applications.lease_findFirst c p).
Proof. apply preserving_reads. reflexivity. Qed.

Lemma Consistent_new_lease t s l :
  Consistent t s -> Lease.id l = nextLeaseId s ->
  is_Some (find_property t (Lease.propertyId l)) ->
  is_Some (find_tenant t (Lease.tenantCognitoId l)) ->
  Consistent (set_leases t (leases t ++ [l])) (take_leaseId s).
Proof.
  intros [A P L O I J R] E Hp Hx. constructor; cbn; try assumption.
  - intros a Ha. destruct (A a Ha) as (A1 & A2 & A3).
    repeat split; [exact A1 | exact A2 |].
    intros k Hk. apply find_is_Some_app. apply (A3 k Hk).
  - intros x Hx'. apply in_app_or in Hx'. destruct Hx' as [Hx'|[<-|[]]].
    + specialize (L x Hx'). lia.
    + lia.
  - intros x Hx'. apply in_app_or in Hx'. destruct Hx' as [Hx'|[<-|[]]].
    + apply R. exact Hx'.
    + split; assumption.
Qed.

Lemma Consistent_take_leaseId t s :
  Consistent t s -> Consistent t (take_leaseId s).
Proof.
  intros C. apply (Consistent_grows t s); [exact C|].
  unfold grows. cbn. lia.
Qed.

Lemma grows_take_leaseId s : grows s (take_leaseId s).
Proof. unfold grows. cbn. lia. Qed.

Lemma preserving_lease_create d : preserving (lease_create d).
Proof.
  intros t s C. unfold lease_create.
  destruct (startDate d), (endDate d);
    try (split; [exact C | apply grows_refl]).
  destruct (find_property t (propertyId d)) eqn:FP,
    (find_tenant t (tenantCognitoId d)) eqn:FT; cbn [fst snd];
    try (split; [apply Consistent_take_leaseId; exact C
                | apply grows_take_leaseId]).
  split; [|apply grows_take_leaseId].
  apply Consistent_new_lease; [exact C | reflexivity | |]; cbn;
    [rewrite FP | rewrite FT]; eexists; reflexivity.
Qed.

Lemma preserving_lease_create_connect d : preserving (lease_create_connect d).
Proof.
  intros t s C. unfold lease_create_connect.
  destruct (c_startDate d), (c_endDate d), (id_of (c_property d)) as [z1|],
    (id_of (c_tenant d)) as [z2|]; try (split; [exact C | apply grows_refl]).
  destruct (find_property t z1) eqn:FP,
    (find_tenant_by_id t z2) as [x|] eqn:FT; cbn [fst snd];
    try (split; [exact C | apply grows_refl]).
  split; [|apply grows_take_leaseId].
  apply Consistent_new_lease; [exact C | reflexivity | |]; cbn.
  - rewrite FP. eexists; reflexivity.
  - apply find_Some_In in FT. destruct FT as [FT _].
    apply (find_is_Some_In _ _ x FT). apply String.eqb_refl.
Qed.

Lemma preserving_property_connect_tenant id c :
  preserving (property_connect_tenant id c).
Proof.
  intros t s C. unfold property_connect_tenant.
  destruct (find_property t id), (find_tenant t c); cbn [fst snd];
    try (split; [exact C | apply grows_refl]).
  split; [|apply grows_refl].
  destruct C as [A P L O I J R]. constructor; cbn; try assumption.
  - intros a Ha. destruct (A a Ha) as (A1 & A2 & A3).
    repeat split; [|exact A2 | exact A3].
    apply find_is_Some_map; [|exact A1].
    intros q. destruct (Property.id q =? id); reflexivity.
  - intros q Hq. apply in_map_iff in Hq. destruct Hq as (q0 & <- & Hq).
    replace (Property.locationId _) with (Property.locationId q0)
      by (destruct (Property.id q0 =? id); reflexivity).
    apply P. exact Hq.
  - intros q Hq. apply in_map_iff in Hq. destruct Hq as (q0 & <- & Hq).
    replace (Property.id _) with (Property.id q0)
      by (destruct (Property.id q0 =? id); reflexivity).
    apply I. exact Hq.
  - intros l Hl. destruct (R l Hl) as [R1 R2]. split; [|exact R2].
    apply find_is_Some_map; [|exact R1].
    intros q. destruct (Property.id q =? id); reflexivity.
Qed.

Lemma preserving_application_update id status leaseId :
  preserving (application_update id status leaseId).
Proof.
  intros t s C. unfold application_update.
  destruct (num_int id) as [n|]; [|split; [exact C | apply grows_refl]].
  destruct (status_update status) as [f|] eqn:F;
    [|split; [exact C | apply grows_refl]].
  destruct (find_application t n); [|split; [exact C | apply grows_refl]].
  destruct leaseId as [k|].
  - destruct (bool_decide_reflect (is_Some (find_lease t k))) as [K|K];
      cbn [fst snd]; [|split; [exact C | apply grows_refl]].
    split; [|apply grows_refl].
    assert (Ff : forall a, Application.id (f a) = Application.id a
                           /\ Application.propertyId (f a)
                              = Application.propertyId a
                           /\ Application.tenantCognitoId (f a)
                              = Application.tenantCognitoId a
                           /\ Application.leaseId (f a) = Application.leaseId a).
    { destruct status; try discriminate; injection F as <-; intros a;
        repeat split. }
    destruct C as [A P L O I J R]. constructor; cbn; try assumption.
    + intros a Ha. apply in_map_iff in Ha. destruct Ha as (a0 & <- & Ha).
      destruct (A a0 Ha) as (A1 & A2 & A3). destruct (Ff a0) as (_ & F2 & F3 & F4).
      destruct (Application.id a0 =? n); [|repeat split; assumption].
      cbn. rewrite F2, F3. repeat split; [exact A1 | exact A2 |].
      intros k' [= <-]. exact K.
    + intros a Ha. apply in_map_iff in Ha. destruct Ha as (a0 & <- & Ha).
      specialize (J a0 Ha). destruct (Ff a0) as (F1 & _).
      destruct (Application.id a0 =? n); [cbn; rewrite F1|]; exact J.
  - cbn [fst snd]. split; [|apply grows_refl].
    assert (Ff : forall a, Application.id (f a) = Application.id a
                           /\ Application.propertyId (f a)
                              = Application.propertyId a
                           /\ Application.tenantCognitoId (f a)
                              = Application.tenantCognitoId a
                           /\ Application.leaseId (f a) = Application.leaseId a).
    { destruct status; try discriminate; injection F as <-; intros a;
        repeat split. }
    destruct C as [A P L O I J R]. constructor; cbn; try assumption.
    + intros a Ha. apply in_map_iff in Ha. destruct Ha as (a0 & <- & Ha).
      destruct (A a0 Ha) as (A1 & A2 & A3). destruct (Ff a0) as (_ & F2 & F3 & F4).
      destruct (Application.id a0 =? n); [|repeat split; assumption].
      rewrite F2, F3, F4. repeat split; assumption.
    + intros a Ha. apply in_map_iff in Ha. destruct Ha as (a0 & <- & Ha).
      specialize (J a0 Ha). destruct (Ff a0) as (F1 & _).
      destruct (Application.id a0 =? n); [rewrite F1|]; exact J.
Qed.

Lemma preserving_application_create d : preserving (application_create d).
Proof.
  intros t s C. unfold application_create.
  destruct (d_applicationDate d), (string_of (d_status d)),
    (string_of (d_name d)), (string_of (d_email d)),
    (string_of (d_phoneNumber d)), (optional_string (d_message d)),
    (id_of (d_property d)) as [pid|], (id_of (d_tenant d)) as [tid|];
    try (split; [exact C | apply grows_refl]).
  destruct (find_property t pid) eqn:FP;
    [|split; [exact C | apply grows_refl]].
  destruct (find_tenant_by_id t tid) as [x|] eqn:FT;
    [|split; [exact C | apply grows_refl]].
  destruct (find_lease t (d_lease d)) eqn:FL;
    [|split; [exact C | apply grows_refl]].
  cbn [fst snd]. split; [|unfold grows; cbn; lia].
  destruct C as [A P L O I J R]. constructor; cbn; try assumption.
  - intros a Ha. apply in_app_or in Ha. destruct Ha as [Ha|[<-|[]]].
    + apply A. exact Ha.
    + cbn. repeat split.
      * unfold find_property in FP. rewrite FP. eexists; reflexivity.
      * apply find_Some_In in FT. destruct FT as [FT _].
        apply (find_is_Some_In _ _ x FT). apply String.eqb_refl.
      * intros k [= <-]. unfold find_lease in FL. rewrite FL.
        eexists; reflexivity.
  - intros a Ha. apply in_app_or in Ha. destruct Ha as [Ha|[<-|[]]].
    + specialize (J a Ha). lia.
    + cbn. lia.
Qed.

Lemma preserving_location_insert body point :
  preserving (Properties.location_insert body point).
Proof.
  intros t s C. unfold Properties.location_insert. cbn [fst snd].
  split; [|unfold grows; cbn; lia].
  destruct C as [A P L O I J R]. constructor; cbn; try assumption.
  - intros p Hp. apply find_is_Some_app. apply (P p Hp).
  - intros l Hl. apply in_app_or in Hl. destruct Hl as [Hl|[<-|[]]].
    + specialize (O l Hl). lia.
    + cbn. lia.
Qed.

Lemma preserving_property_create refuses body urls k :
  preserving (Properties.property_create refuses body urls k).
Proof.
  intros t s C. unfold Properties.property_create.
  destruct (refuses _); [split; [exact C | apply grows_refl]|].
  assert (G : grows s (take_propertyId s)) by (unfold grows; cbn; lia).
  destruct (find_manager t _);
    [|split; [eapply Consistent_grows; eassumption | exact G]].
  destruct (find_location t k) eqn:FL;
    [|split; [eapply Consistent_grows; eassumption | exact G]].
  cbn [fst snd]. split; [|exact G].
  destruct C as [A P L O I J R]. constructor; cbn; try assumption.
  - intros a Ha. destruct (A a Ha) as (A1 & A2 & A3).
    repeat split; [|exact A2 | exact A3]. apply find_is_Some_app. exact A1.
  - intros p Hp. apply in_app_or in Hp. destruct Hp as [Hp|[<-|[]]].
    + apply P. exact Hp.
    + cbn. unfold find_location in FL. rewrite FL. eexists; reflexivity.
  - intros p Hp. apply in_app_or in Hp. destruct Hp as [Hp|[<-|[]]].
    + specialize (I p Hp). lia.
    + cbn. lia.
  - intros l Hl. destruct (R l Hl) as [R1 R2]. split; [|exact R2].
    apply find_is_Some_app. exact R1.
Qed.

(** *** The handlers *)

Lemma preserved_updateApplicationStatus failing tza now id status :
  preserved (Applications.updateApplicationStatus failing tza now id status).
Proof.
  unfold Applications.updateApplicationStatus.
  apply preserved_handler. apply preserved_bind.
  { apply preserved_call, preserving_application_findUnique. }
  intros [application|]; [|apply preserved_ret].
  apply preserved_bind.
  - destruct (is_string "Approved" status).
    + destruct (property application); [|apply preserved_throw].
      apply preserved_bind; [apply preserved_call, preserving_lease_create|].
      intros newLease. apply preserved_bind;
        [apply preserved_call, preserving_property_connect_tenant|].
      intros _. apply preserved_call, preserving_application_update.
    + apply preserved_call, preserving_application_update.
  - intros _. apply preserved_bind;
      [apply preserved_call, preserving_application_findUnique|].
    intros updated. apply preserved_ret.
Qed.

Lemma preserved_createApplication failing tza now parseDate body :
  preserved (Applications.createApplication failing tza now parseDate body).
Proof.
  unfold Applications.createApplication.
  apply preserved_handler. apply preserved_bind.
  { apply preserved_call, preserving_property_findUnique. }
  intros [property|]; [|apply preserved_ret].
  apply preserved_bind; [|intros r; apply preserved_ret].
  apply preserved_transaction. apply preserved_bind.
  { apply preserved_call, preserving_lease_create_connect. }
  intros lease. apply preserved_bind;
    [apply preserved_call, preserving_application_create|].
  intros a. apply preserved_ret.
Qed.

Lemma preserved_createProperty failing upload geocode refuses now files body :
  preserved (Properties.createProperty failing upload geocode refuses now
               files body).
Proof.
  unfold Properties.createProperty.
  apply preserved_handler. apply preserved_bind; [apply preserved_lift|].
  intros urls. apply preserved_bind; [apply preserved_lift|].
  intros data. apply preserved_bind;
    [apply preserved_call, preserving_location_insert|].
  intros l. apply preserved_bind;
    [apply preserved_call, preserving_property_create|].
  intros c. apply preserved_ret.
Qed.

(** X11. updateApplicationStatus keeps the database consistent, whatever
    the identifier and the status and whichever call to the database
    fails: after the request every application still has its property,
    its tenant and the lease it names, every lease its property and its
    tenant, every property its location, and no identifier is ahead of its
    sequence.  The lease an interrupted approval leaves behind is such a
    lease: unused, but with no reference that dangles. *)
Theorem updateApplicationStatus_consistent (failing : option nat)
    (tza now : Z) (id : string) (status : value) (w : World) :
  consistent (tables w) (sequences w) = true ->
  let result :=
    Applications.updateApplicationStatus failing tza now id status w in
  consistent (tables (fst result)) (sequences (fst result)) = true
  /\ grows (sequences w) (sequences (fst result)).
Proof.
  intros C. cbv zeta. rewrite consistent_iff in *.
  apply preserved_updateApplicationStatus. exact C.
Qed.

Lemma updateApplicationStatus_consistent_witness :
  let result :=
    Applications.updateApplicationStatus (Some 3%nat) 0 Fixtures.noon "1"
      (VStr "Approved") Fixtures.sample in
  consistent (tables (fst result)) (sequences (fst result)) = true
  /\ grows (sequences Fixtures.sample) (sequences (fst result)).
Proof.
  apply (updateApplicationStatus_consistent (Some 3%nat) 0 Fixtures.noon "1"
           (VStr "Approved") Fixtures.sample).
  reflexivity.
Defined.

(** X12. createApplication keeps the database consistent, whatever the
    body of the request and whichever call to the database fails, also
    when its transaction is rolled back: the tables return to a state the
    advanced sequences still cover. *)
Theorem createApplication_consistent (failing : option nat) (tza now : Z)
    (parseDate : string -> JSDate.Date) (body : Applications.ApplicationBody)
    (w : World) :
  consistent (tables w) (sequences w) = true ->
  let result :=
    Applications.createApplication failing tza now parseDate body w in
  consistent (tables (fst result)) (sequences (fst result)) = true
  /\ grows (sequences w) (sequences (fst result)).
Proof.
  intros C. cbv zeta. rewrite consistent_iff in *.
  apply preserved_createApplication. exact C.
Qed.

Lemma createApplication_consistent_witness :
  let result :=
    Applications.createApplication (Some 2%nat) 0 Fixtures.noon
      Fixtures.parse_epoch Fixtures.eves_request Fixtures.sample in
  consistent (tables (fst result)) (sequences (fst result)) = true
  /\ grows (sequences Fixtures.sample) (sequences (fst result)).
Proof.
  apply (createApplication_consistent (Some 2%nat) 0 Fixtures.noon
           Fixtures.parse_epoch Fixtures.eves_request Fixtures.sample).
  reflexivity.
Defined.

(** X13. createProperty keeps the database consistent, whatever the form
    and the files and whatever fails (an upload, the geocoding service, the
    ORM, a call to the database): a location that a failed request leaves
    behind breaks no reference and is covered by its sequence. *)
Theorem createProperty_consistent (failing : option nat)
    (upload : Z -> Properties.File -> Outcome string)
    (geocode : string -> string -> string -> string
               -> Outcome (list Properties.GeoResult))
    (prisma_refuses : Property.t -> option string) (now : Z)
    (files : list Properties.File) (body : Properties.Body) (w : World) :
  consistent (tables w) (sequences w) = true ->
  let result :=
    Properties.createProperty failing upload geocode prisma_refuses now
      files body w in
  consistent (tables (fst result)) (sequences (fst result)) = true
  /\ grows (sequences w) (sequences (fst result)).
Proof.
  intros C. cbv zeta. rewrite consistent_iff in *.
  apply preserved_createProperty. exact C.
Qed.

Lemma createProperty_consistent_witness :
  let result :=
    Properties.createProperty (Some 1%nat) Fixtures.store Fixtures.nowhere
      Fixtures.refuse_nan Fixtures.noon [Fixtures.photo] Fixtures.form
      Fixtures.sample in
  consistent (tables (fst result)) (sequences (fst result)) = true
  /\ grows (sequences Fixtures.sample) (sequences (fst result)).
Proof.
  apply (createProperty_consistent (Some 1%nat) Fixtures.store
           Fixtures.nowhere Fixtures.refuse_nan Fixtures.noon
           [Fixtures.photo] Fixtures.form Fixtures.sample).
  reflexivity.
Defined.

End InvariantFacts.

(** ** Facts about the application controllers *)
Module ApplicationsFacts.
Import JS Http Db Prisma Applications DbFacts.
Local Open Scope Z_scope.

(** *** Updating a status: the frame *)

Lemma with_status_same (a : Application.t) :
  Application.with_status (Application.status a) a = a.
Proof. destruct a. reflexivity. Qed.

Lemma status_only_refl t : status_only t t.
Proof.
  repeat split. apply Forall2_same_length_lookup_2; [reflexivity|].
  intros i a a' H1 H2. exists (Application.status a).
  rewrite with_status_same. congruence.
Qed.

Lemma status_only_trans a b c :
  status_only a b -> status_only b c -> status_only a c.
Proof.
  intros (M1 & T1 & L1 & P1 & E1 & A1) (M2 & T2 & L2 & P2 & E2 & A2).
  repeat split; try congruence.
  revert A2. generalize (applications c). clear -A1.
  induction A1 as [|x y l l' [s ->] _ IH]; intros l2 A2.
  - inversion A2. constructor.
  - inversion A2 as [|? z ? l2' [s' ->] T]; subst. constructor.
    + exists s'. reflexivity.
    + apply IH, T.
Qed.

Lemma status_update_cases (v : value) f :
  status_update v = Some f ->
  forall a, exists s, f a = Application.with_status s a.
Proof.
  destruct v; try discriminate; intros [= <-] a.
  - exists (Application.status a). symmetry. apply with_status_same.
  - eexists. reflexivity.
Qed.

Lemma application_findUnique_reads id t s :
  fst (fst (application_findUnique id t s)) = t.
Proof. unfold application_findUnique. destruct (num_int id); reflexivity. Qed.

Lemma application_update_status_only id status t s :
  status_only t (fst (fst (application_update id status None t s))).
Proof.
  unfold application_update.
  destruct (num_int id) as [n|]; [|apply status_only_refl].
  destruct (status_update status) as [f|] eqn:F; [|apply status_only_refl].
  destruct (find_application t n); [|apply status_only_refl].
  cbn [fst]. repeat split. cbn [applications set_applications].
  induction (applications t) as [|a l IH]; cbn [map]; constructor; [|exact IH].
  destruct (Application.id a =? n).
  - apply (status_update_cases _ _ F).
  - exists (Application.status a). symmetry. apply with_status_same.
Qed.

Lemma status_only_leaseIds t t' :
  status_only t t' ->
  map Application.leaseId (applications t')
  = map Application.leaseId (applications t).
Proof.
  intros (_ & _ & _ & _ & _ & H).
  induction H as [|a a' l l' [s ->] _ IH]; [reflexivity|].
  cbn [map]. rewrite IH. reflexivity.
Qed.

(** Whatever the status, other than "Approved", and whether or not a call
    to the database fails, the update leaves every table but the statuses
    of the applications as it was. *)
Lemma updateApplicationStatus_status_only failing tza now id status w :
  is_string "Approved" status = false ->
  status_only (tables w)
    (tables (fst (updateApplicationStatus failing tza now id status w))).
Proof.
  intros NA. unfold updateApplicationStatus.
  pose proof status_only_refl as Rf. pose proof status_only_trans as Tr.
  apply (maintains_handler status_only).
  apply maintains_bind; auto.
  { apply maintains_call; auto. intros t s.
    rewrite application_findUnique_reads. apply Rf. }
  intros [a|]; [|apply maintains_ret; auto].
  rewrite NA. apply maintains_bind; auto.
  { apply maintains_call; auto. intros t s.
    apply application_update_status_only. }
  intros _. apply maintains_bind; auto.
  { apply maintains_call; auto. intros t s.
    rewrite application_findUnique_reads. apply Rf. }
  intros u. apply maintains_ret; auto.
Qed.

(** *** Approval *)

Lemma application_findUnique_found id n a t s :
  num_int id = Some n ->
  find_application t n = Some a ->
  application_findUnique id t s = (t, s, Returned (Some (include_relations t a))).
Proof. intros H1 H2. unfold application_findUnique. rewrite H1, H2. reflexivity. Qed.

Lemma lease_create_inserts d sd ed p x t s :
  startDate d = Some sd -> endDate d = Some ed ->
  find_property t (Prisma.propertyId d) = Some p ->
  find_tenant t (Prisma.tenantCognitoId d) = Some x ->
  lease_create d t s
  = (set_leases t (leases t ++ [Lease.mk (nextLeaseId s) sd ed (rent d)
                                   (deposit d) (Prisma.propertyId d)
                                   (Prisma.tenantCognitoId d)]),
     take_leaseId s,
     Returned (Lease.mk (nextLeaseId s) sd ed (rent d) (deposit d)
                 (Prisma.propertyId d) (Prisma.tenantCognitoId d))).
Proof.
  intros H1 H2 H3 H4. unfold lease_create. rewrite H1, H2, H3, H4.
  reflexivity.
Qed.

Lemma property_connect_tenant_updates id c p x t s :
  find_property t id = Some p ->
  find_tenant t c = Some x ->
  property_connect_tenant id c t s
  = (set_properties t
       (map (fun q => if Property.id q =? id
                      then Property.connect_tenant c q else q)
            (properties t)), s, Returned tt).
Proof.
  intros H1 H2. unfold property_connect_tenant. rewrite H1, H2. reflexivity.
Qed.

Lemma application_update_approves id n a l k t s :
  num_int id = Some n ->
  find_application t n = Some a ->
  find_lease t k = Some l ->
  application_update id (VStr "Approved") (Some k) t s
  = (set_applications t
       (map (fun b => if Application.id b =? n
                      then Application.with_leaseId (Some k)
                             (Application.with_status "Approved" b)
                      else b)
            (applications t)), s, Returned tt).
Proof.
  intros H1 H2 H3. unfold application_update. rewrite H1, H2, H3.
  cbn [status_update]. rewrite bool_decide_eq_true_2 by eauto. reflexivity.
Qed.

Section Approval.
Variables (tza now : Z) (id : string) (w : World).
Variables (n ends : Z) (a : Application.t) (p : Property.t) (x : Tenant.t).
Hypothesis Hid : num_int (Number id) = Some n.
Hypothesis Happ : find_application (tables w) n = Some a.
Hypothesis Hprop : find_property (tables w) (Application.propertyId a) = Some p.
Hypothesis Hten : find_tenant (tables w) (Application.tenantCognitoId a) = Some x.
Hypothesis Hend : JSDate.oneYearFrom tza now = Some ends.
Hypothesis Hseq :
  forall l, In l (leases (tables w)) -> Lease.id l < nextLeaseId (sequences w).

Local Abbreviation new_lease := (approval_lease w now ends a p).
Local Abbreviation after := (approved_tables w now ends n a p).

Lemma found_property_id : Property.id p = Application.propertyId a.
Proof. apply Z.eqb_eq. apply (find_found _ _ _ Hprop). Qed.

Lemma found_application_id : Application.id a = n.
Proof. apply Z.eqb_eq. apply (find_found _ _ _ Happ). Qed.

Lemma approved_find_application :
  find_application after n = Some (approved_application w a).
Proof.
  unfold find_application, approved_tables. cbn [applications].
  rewrite (find_after_update Application.id) by reflexivity.
  fold (find_application (tables w) n). rewrite Happ. cbn [option_map].
  rewrite found_application_id, Z.eqb_refl. reflexivity.
Qed.

Lemma approved_find_property :
  find_property after (Application.propertyId a)
  = Some (approved_property a p).
Proof.
  unfold find_property, approved_tables. cbn [properties].
  rewrite (find_after_update Property.id) by reflexivity.
  fold (find_property (tables w) (Application.propertyId a)).
  rewrite Hprop. cbn [option_map]. rewrite found_property_id, Z.eqb_refl. reflexivity.
Qed.

Lemma approved_find_lease :
  find_lease after (Lease.id new_lease) = Some new_lease.
Proof.
  unfold find_lease, approved_tables. cbn [leases].
  apply (find_appended Lease.id). exact Hseq.
Qed.

Lemma approval_runs :
  updateApplicationStatus None tza now id (VStr "Approved") w
  = (mkWorld after (take_leaseId (sequences w)) (5 + calls w),
     Json 200
       (Some (mkApplicationWith (approved_application w a)
                (Some (approved_property a p)) (Some x) (Some new_lease)))).
Proof.
  unfold updateApplicationStatus, handler, bind.
  rewrite (call_returns _ _ _ _ _
             (application_findUnique_found _ _ _ _ _ Hid Happ)).
  change (is_string "Approved" (VStr "Approved")) with true. cbn iota.
  cbn [include_relations property Prisma.application]. rewrite Hprop.
  erewrite call_returns
    by (apply (lease_create_inserts _ now ends p x);
        [reflexivity | exact Hend | exact Hprop | exact Hten]).
  erewrite call_returns
    by (apply (property_connect_tenant_updates _ _ p x);
        [exact Hprop | exact Hten]).
  erewrite call_returns
    by (apply (application_update_approves _ n a new_lease);
        [exact Hid | exact Happ | apply approved_find_lease]).
  erewrite call_returns
    by (apply (application_findUnique_found _ n (approved_application w a));
        [exact Hid | apply approved_find_application]).
  unfold include_relations.
  change (find_property _ (Application.propertyId (approved_application w a)))
    with (find_property after (Application.propertyId a)).
  change (find_tenant _ (Application.tenantCognitoId (approved_application w a)))
    with (find_tenant (tables w) (Application.tenantCognitoId a)).
  rewrite approved_find_property, Hten.
  change (Application.leaseId (approved_application w a))
    with (Some (Lease.id new_lease)). cbn iota.
  change (find_lease _ (Lease.id new_lease))
    with (find_lease after (Lease.id new_lease)).
  rewrite approved_find_lease. reflexivity.
Qed.
End Approval.

(** C1. For an existing application of a database that keeps its foreign
    keys, when no call to the database fails, the status update with the
    status "Approved" appends exactly one lease to the table of leases: it
    has the price and deposit of the property as rent and deposit, and an
    identifier that no earlier lease has, so it is not the lease the
    application referred to before.  The tenant of the application is added
    to the tenants of the property, and the application gets the status
    "Approved" and a reference to the new lease; the response shows it so. *)
Theorem updateApplicationStatus_approved (tza now : Z) (id : string)
    (w : World) (n ends : Z) (a : Application.t) (p : Property.t) :
  num_int (Number id) = Some n ->
  find_application (tables w) n = Some a ->
  find_property (tables w) (Application.propertyId a) = Some p ->
  integrity (tables w) (sequences w) = true ->
  JSDate.oneYearFrom tza now = Some ends ->
  let result := updateApplicationStatus None tza now id (VStr "Approved") w in
  let after := tables (fst result) in
  let newLease :=
    Lease.mk (nextLeaseId (sequences w)) now ends
             (Property.pricePerMonth p) (Property.securityDeposit p)
             (Application.propertyId a) (Application.tenantCognitoId a) in
  leases after = leases (tables w) ++ [newLease]
  /\ (forall l, In l (leases (tables w)) -> Lease.id l <> Lease.id newLease)
  /\ Application.leaseId a <> Some (Lease.id newLease)
  /\ (exists p', find_property after (Application.propertyId a) = Some p'
                 /\ Property.tenants p'
                    = {[ Application.tenantCognitoId a ]} ∪ Property.tenants p)
  /\ find_application after n
     = Some (Application.with_leaseId (Some (Lease.id newLease))
               (Application.with_status "Approved" a))
  /\ exists a' p' x,
       snd result = Json 200 (Some (mkApplicationWith a' (Some p') (Some x)
                                      (Some newLease)))
       /\ Application.status a' = "Approved"
       /\ Application.leaseId a' = Some (Lease.id newLease).
Proof.
  intros Hid Happ Hprop Hint Hend.
  destruct (integrity_application _ _ a Hint (find_in _ _ _ Happ))
    as (_ & [x Hten] & Hfk).
  pose proof (fun l => integrity_lease _ _ l Hint) as Hseq.
  cbv zeta.
  rewrite (approval_runs tza now id w n ends a p x Hid Happ Hprop Hten Hend Hseq).
  cbn [fst snd tables]. split; [reflexivity|]. split; [|split; [|split; [|split]]].
  - intros l Hl. specialize (Hseq l Hl). cbn [Lease.id]. lia.
  - intros E. destruct (Hfk _ E) as [l Hl].
    pose proof (find_found _ _ _ Hl) as K. apply Z.eqb_eq in K.
    specialize (Hseq l (find_in _ _ _ Hl)). cbn [Lease.id] in K. lia.
  - eexists. split; [apply approved_find_property; assumption | reflexivity].
  - apply approved_find_application; assumption.
  - eexists _, _, _. split; [reflexivity|]. split; reflexivity.
Qed.

Lemma updateApplicationStatus_approved_witness :
  let result :=
    updateApplicationStatus None 0 Fixtures.noon "1" (VStr "Approved")
                            Fixtures.sample in
  let after := tables (fst result) in
  let newLease :=
    Lease.mk 3 Fixtures.noon 1710936000000 (Dec false 1500 0)
             (Dec false 3000 0) 1 "ten-bob" in
  leases after = [Fixtures.lease1; Fixtures.lease2] ++ [newLease]
  /\ (forall l, In l [Fixtures.lease1; Fixtures.lease2] ->
                Lease.id l <> Lease.id newLease)
  /\ Some 1 <> Some (Lease.id newLease)
  /\ (exists p', find_property after 1 = Some p'
                 /\ Property.tenants p' = {[ "ten-bob" ]} ∪ ∅)
  /\ find_application after 1
     = Some (Application.with_leaseId (Some (Lease.id newLease))
               (Application.with_status "Approved" Fixtures.bobs_application))
  /\ exists a' p' x,
       snd result = Json 200 (Some (mkApplicationWith a' (Some p') (Some x)
                                      (Some newLease)))
       /\ Application.status a' = "Approved"
       /\ Application.leaseId a' = Some (Lease.id newLease).
Proof.
  apply (updateApplicationStatus_approved 0 Fixtures.noon "1" Fixtures.sample
           1 1710936000000 Fixtures.bobs_application Fixtures.flat);
    vm_compute; reflexivity.
Defined.

(** *** Other statuses *)

Lemma not_approved (status : value) :
  status <> VStr "Approved" -> is_string "Approved" status = false.
Proof.
  intros H. destruct status; try reflexivity. cbn [is_string].
  apply String.eqb_neq. congruence.
Qed.

Lemma application_update_sets_status id n a s t sq :
  num_int id = Some n ->
  find_application t n = Some a ->
  application_update id (VStr s) None t sq
  = (set_applications t
       (map (fun b => if Application.id b =? n
                      then Application.with_status s b else b)
            (applications t)), sq, Returned tt).
Proof.
  intros H1 H2. unfold application_update. rewrite H1, H2. reflexivity.
Qed.

Lemma status_update_runs tza now id s w n a :
  s <> "Approved" ->
  num_int (Number id) = Some n ->
  find_application (tables w) n = Some a ->
  exists t' r,
    updateApplicationStatus None tza now id (VStr s) w
    = (mkWorld t' (sequences w) (3 + calls w), Json 200 (Some r))
    /\ find_application t' n = Some (Application.with_status s a)
    /\ application r = Application.with_status s a.
Proof.
  intros Hs Hid Happ.
  unfold updateApplicationStatus, handler, bind.
  rewrite (call_returns _ _ _ _ _
             (application_findUnique_found _ _ _ _ _ Hid Happ)).
  rewrite (not_approved (VStr s)) by congruence.
  erewrite call_returns
    by (apply (application_update_sets_status _ n a); [exact Hid | exact Happ]).
  cbn [tables sequences calls].
  set (t' := set_applications _ _).
  assert (F : find_application t' n = Some (Application.with_status s a)).
  { unfold find_application, t'. cbn [applications set_applications].
    rewrite (find_after_update Application.id) by reflexivity.
    fold (find_application (tables w) n). rewrite Happ. cbn [option_map].
    rewrite (found_application_id w n a Happ), Z.eqb_refl. reflexivity. }
  erewrite call_returns
    by (apply (application_findUnique_found _ n (Application.with_status s a));
        [exact Hid | exact F]).
  eexists _, _. split; [reflexivity|]. split; [exact F | reflexivity].
Qed.



(** *** The two write paths and the transaction *)

Lemma property_findUnique_reads v t s :
  fst (fst (property_findUnique v t s)) = t.
Proof. unfold property_findUnique. destruct (id_of v); reflexivity. Qed.

(** X1. createApplication writes its lease and its application in one
    transaction: whichever call to the database fails, unless the request
    is answered 201 the tables are as they were. *)
Lemma createApplication_all_or_nothing failing tza now parseDate body w :
  let result := createApplication failing tza now parseDate body w in
  (exists r, snd result = Json 201 r) \/ tables (fst result) = tables w.
Proof.
  cbv zeta. unfold createApplication, handler, bind.
  pose proof (maintains_call eq (fun t => eq_refl) failing
                (property_findUnique (propertyId body))
                (fun t s => eq_sym (property_findUnique_reads _ t s)) w) as R.
  destruct (call failing (property_findUnique (propertyId body)) w)
    as [w1 [[property|]|m]]; cbn [fst] in R; cbn [fst snd ret].
  - match goal with
    | |- context [transaction ?b w1] =>
        pose proof (transaction_rolls_back b w1) as T;
        destruct (transaction b w1) as [w2 [r|m]]
    end; cbn [fst snd].
    + left. eauto.
    + right. congruence.
  - right. congruence.
  - right. congruence.
Qed.

(** C2, the approval path.  In the sample database the call that updates
    the application fails (call 3, after the lease was inserted and the
    tenant connected): the request is answered 500, and the lease 3 it
    inserted stays in the table, referred to by no application, with the
    tenant connected to the property; no transaction rolls the writes
    back. *)
Theorem approval_leaves_orphan_lease :
  let result :=
    updateApplicationStatus (Some 3%nat) 0 Fixtures.noon "1"
                            (VStr "Approved") Fixtures.sample in
  let after := tables (fst result) in
  snd result
  = Message 500 "Error updating application status: the database call failed"
  /\ leases after
     = leases Fixtures.sample_tables
       ++ [Lease.mk 3 Fixtures.noon 1710936000000 (Dec false 1500 0)
                    (Dec false 3000 0) 1 "ten-bob"]
  /\ applications after = applications Fixtures.sample_tables
  /\ map Application.leaseId (applications after) = [Some 1; None]
  /\ map (fun p => elements (Property.tenants p)) (properties after)
     = [["ten-bob"]].
Proof. vm_compute. repeat split. Qed.

(** *** Listing applications *)

Lemma latest_is_max (ls : list Lease.t) (m : Lease.t) :
  latest ls = Some m ->
  In m ls /\ forall l, In l ls -> Lease.startDate l <= Lease.startDate m.
Proof.
  revert m. induction ls as [|x ls IH]; intros m; [discriminate|].
  cbn [latest]. destruct (latest ls) as [b|] eqn:E.
  - destruct (IH b eq_refl) as [Hin Hmax].
    destruct (Z.ltb_spec (Lease.startDate x) (Lease.startDate b));
      intros [= <-]; (split; [simpl; auto|]); intros l [<-|Hl];
      try lia; specialize (Hmax l Hl); lia.
  - intros [= <-]. destruct ls as [|y ls]; [|simpl in E; destruct (latest ls);
      [destruct (_ <? _)|]; discriminate].
    split; [simpl; auto|]. intros l [<-|[]]. lia.
Qed.

Lemma latest_none (ls : list Lease.t) : latest ls = None -> ls = [].
Proof.
  destruct ls as [|x ls]; [reflexivity|]. cbn [latest].
  destruct (latest ls); [destruct (_ <? _)|]; discriminate.
Qed.

Lemma formatApplication_returns failing tza now a w w' f :
  formatApplication failing tza now a w = (w', Returned f) ->
  tables w' = tables w /\ app f = a
  /\ app_lease f = listed_lease tza now (tables w) (listed a).
Proof.
  unfold formatApplication, bind, call, lease_findFirst, listed_lease.
  destruct (bool_decide _); [discriminate|].
  destruct (listed_property a) as [p|]; [|discriminate].
  destruct (location p); [|discriminate].
  intros [= <- <-]. auto.
Qed.

(** A list the handler answers holds the selected applications, in the
    order of the table, each with the lease [listed_lease] gives. *)
Lemma listApplications_returns failing tza now userId userType w items :
  snd (listApplications failing tza now userId userType w) = Json 200 items ->
  Forall2 (fun a f => listed (app f) = a
                      /\ app_lease f = listed_lease tza now (tables w) a)
          (selected (tables w) (whereClause userId userType)) items.
Proof.
  unfold listApplications, handler, bind at 1, call, application_findMany.
  destruct (bool_decide _); [discriminate|].
  cbn [fst snd]. unfold bind at 1.
  match goal with
  | |- context [mapM ?f ?l ?w0] =>
      destruct (mapM f l w0) as [w1 [fs|m]] eqn:E
  end; [|discriminate].
  cbn [ret snd]. intros [= <-].
  apply (mapM_returns _
           (fun t a f => app f = a
                         /\ app_lease f = listed_lease tza now t (listed a)))
    in E.
  - destruct E as [_ E]. cbn [tables] in E.
    revert E. generalize (selected (tables w) (whereClause userId userType)).
    intros l. revert fs. induction l as [|a l IH]; intros fs E;
      inversion E as [|? f ? fs' [Ha Hl] T]; subst; constructor.
    + rewrite Ha. split; [reflexivity | exact Hl].
    + apply IH, T.
  - intros a w0 w' f H.
    destruct (formatApplication_returns _ _ _ _ _ _ _ H) as (T & Ha & Hl). auto.
Qed.

Lemma formatApplication_runs tza now (a : Listed) pw loc w :
  listed_property a = Some pw -> location pw = Some loc ->
  exists f, formatApplication None tza now a w
            = (mkWorld (tables w) (sequences w) (S (calls w)), Returned f).
Proof.
  intros Hp Hl. unfold formatApplication, bind.
  erewrite call_returns by reflexivity. rewrite Hp, Hl. eexists. reflexivity.
Qed.

(** With the foreign keys kept and no failing call the list is answered. *)
Lemma listApplications_runs tza now userId userType w :
  integrity (tables w) (sequences w) = true ->
  exists items,
    snd (listApplications None tza now userId userType w) = Json 200 items.
Proof.
  intros Hint. unfold listApplications, handler, bind at 1.
  erewrite call_returns by reflexivity. unfold bind at 1.
  match goal with
  | |- context [mapM ?f ?l ?w0] =>
      destruct (mapM_runs f (tables w) l) with (w := w0)
        as (bs & w' & E); [| reflexivity | rewrite E]
  end.
  - intros la Hla w0 Hw0. apply in_map_iff in Hla as (a & <- & Ha).
    apply list_elem_of_In, list_elem_of_filter in Ha as [_ Ha].
    apply list_elem_of_In in Ha.
    destruct (integrity_application _ _ a Hint Ha) as ([p Hp] & _ & _).
    destruct (integrity_location _ _ p Hint (find_in _ _ _ Hp)) as [loc Hloc].
    destruct (formatApplication_runs tza now (include_listed (tables w) a)
                (mkPropertyWith p (Some loc)
                   (find_manager (tables w) (Property.managerCognitoId p)))
                loc w0) as [f Hf].
    + unfold include_listed. cbn [listed_property]. rewrite Hp.
      cbn [option_map]. rewrite Hloc. reflexivity.
    + reflexivity.
    + exists f. eexists. split; [exact Hf | exact Hw0].
  - eexists. reflexivity.
Qed.

Lemma Forall2_listed (Q : Application.t -> Formatted -> Prop) l items :
  Forall2 (fun a f => listed (app f) = a /\ Q a f) l items ->
  map (fun f => listed (app f)) items = l.
Proof.
  induction 1 as [|a f l items [E _] _ IH]; [reflexivity|].
  cbn [map]. rewrite E, IH. reflexivity.
Qed.



Lemma whereClause_unscoped (userId userType : option string) :
  param_truthy userId = false \/ param_truthy userType = false
  \/ (userType <> Some "tenant" /\ userType <> Some "manager") ->
  whereClause userId userType = WhereAll.
Proof.
  unfold whereClause. intros [->|[->|[H1 H2]]];
    rewrite ?andb_false_r; try reflexivity.
  destruct (_ && _) eqn:T; [|reflexivity].
  apply andb_true_iff in T as [_ T].
  destruct userType as [s|]; [|discriminate T]. cbn [param_string].
  destruct (String.eqb_spec s "tenant") as [->|_]; [congruence|].
  destruct (String.eqb_spec s "manager") as [->|_]; [congruence|].
  reflexivity.
Qed.

Lemma selected_all (t : Tables) : selected t WhereAll = applications t.
Proof.
  unfold selected. induction (applications t) as [|a l IH]; [reflexivity|].
  rewrite filter_cons_True by reflexivity. rewrite IH. reflexivity.
Qed.

(** C10. When userId or userType is missing (or empty), or userType is
    neither "tenant" nor "manager", the where-clause is the empty one and
    selects every application of the database: a list the handler answers
    holds them all, whoever asks, and with the foreign keys kept and no
    failing call it does answer. *)
Theorem listApplications_unscoped (failing : option nat) (tza now : Z)
    (userId userType : option string) (w : World) :
  param_truthy userId = false \/ param_truthy userType = false
  \/ (userType <> Some "tenant" /\ userType <> Some "manager") ->
  whereClause userId userType = WhereAll
  /\ selected (tables w) (whereClause userId userType)
     = applications (tables w)
  /\ (forall items,
        snd (listApplications failing tza now userId userType w)
        = Json 200 items ->
        map (fun f => listed (app f)) items = applications (tables w))
  /\ (integrity (tables w) (sequences w) = true ->
      exists items,
        snd (listApplications None tza now userId userType w) = Json 200 items
        /\ map (fun f => listed (app f)) items = applications (tables w)).
Proof.
  intros H. pose proof (whereClause_unscoped _ _ H) as W.
  assert (S : selected (tables w) (whereClause userId userType)
              = applications (tables w))
    by (rewrite W; apply selected_all).
  assert (L : forall fl items,
             snd (listApplications fl tza now userId userType w)
             = Json 200 items ->
             map (fun f => listed (app f)) items = applications (tables w)).
  { intros fl items E. apply listApplications_returns in E.
    rewrite S in E. apply (Forall2_listed _ _ _ E). }
  split; [exact W|]. split; [exact S|]. split; [apply L|].
  intros Hint. destruct (listApplications_runs tza now userId userType w Hint)
    as [items E].
  exists items. split; [exact E | apply (L None), E].
Qed.

Lemma listApplications_unscoped_witness :
  whereClause (Some "ten-bob") (Some "admin") = WhereAll
  /\ selected (tables Fixtures.sample) (whereClause (Some "ten-bob") (Some "admin"))
     = applications (tables Fixtures.sample)
  /\ (forall items,
        snd (listApplications None 0 Fixtures.noon (Some "ten-bob")
               (Some "admin") Fixtures.sample)
        = Json 200 items ->
        map (fun f => listed (app f)) items
        = applications (tables Fixtures.sample))
  /\ (integrity (tables Fixtures.sample) (sequences Fixtures.sample) = true ->
      exists items,
        snd (listApplications None 0 Fixtures.noon (Some "ten-bob")
               (Some "admin") Fixtures.sample) = Json 200 items
        /\ map (fun f => listed (app f)) items
           = applications (tables Fixtures.sample)).
Proof.
  apply (listApplications_unscoped None 0 Fixtures.noon (Some "ten-bob")
           (Some "admin") Fixtures.sample).
  right. right. split; discriminate.
Defined.

End ApplicationsFacts.

(** ** More facts about the application controllers *)
Module ApplicationsMore.
Import JS Http Db Prisma Applications Invariant.
Import DbFacts DbMore InvariantFacts.
Local Open Scope Z_scope.

(** *** Computations that only read *)

Lemma reads_ret {A : Type} (a : A) : reads (ret a).
Proof. intros w. split; reflexivity. Qed.

Lemma reads_throw {A : Type} (m : string) : reads (@throw A m).
Proof. intros w. split; reflexivity. Qed.

Lemma reads_bind {A B : Type} (c : Async A) (k : A -> Async B) :
  reads c -> (forall a, reads (k a)) -> reads (bind c k).
Proof.
  intros Hc Hk w. unfold bind. specialize (Hc w).
  destruct (c w) as [w' [a|m]]; cbn [fst] in *; [|exact Hc].
  destruct Hc as [T S]. destruct (Hk a w') as [T' S'].
  split; congruence.
Qed.

Lemma reads_call {A : Type} (failing : option nat) (op : Operation A) :
  (forall t s, fst (op t s) = (t, s)) -> reads (call failing op).
Proof.
  intros H w. unfold call. destruct (bool_decide _); [split; reflexivity|].
  specialize (H (tables w) (sequences w)).
  destruct (op (tables w) (sequences w)) as [[t s] r]. cbn [fst] in *.
  injection H as -> ->. split; reflexivity.
Qed.

Lemma reads_mapM {A B : Type} (f : A -> Async B) (l : list A) :
  (forall a, reads (f a)) -> reads (mapM f l).
Proof.
  intros H. induction l as [|a l IH]; cbn [mapM].
  - apply reads_ret.
  - apply reads_bind; [apply H|]. intros b.
    apply reads_bind; [exact IH|]. intros bs. apply reads_ret.
Qed.

Lemma reads_handler {A : Type} (label : string) (body : Async (Response A)) :
  reads body -> reads (handler label body).
Proof.
  intros H w. unfold handler. specialize (H w).
  destruct (body w) as [w' [a|m]]; exact H.
Qed.

Lemma reads_formatApplication failing tza now a :
  reads (formatApplication failing tza now a).
Proof.
  unfold formatApplication. apply reads_bind.
  - apply reads_call. reflexivity.
  - intros lease. destruct (listed_property a) as [p|]; [|apply reads_throw].
    destruct (location p); [apply reads_ret | apply reads_throw].
Qed.

(** The calls a list that is answered has cost. *)
Lemma formatApplication_calls failing tza now a w w' f :
  formatApplication failing tza now a w = (w', Returned f) ->
  calls w' = S (calls w).
Proof.
  unfold formatApplication, bind, call, lease_findFirst.
  destruct (bool_decide _); [discriminate|].
  destruct (listed_property a) as [p|]; [|discriminate].
  destruct (location p); [|discriminate].
  intros [= <- _]. reflexivity.
Qed.

Lemma mapM_calls {A B : Type} (f : A -> Async B) (l : list A) :
  (forall a w w' b, f a w = (w', Returned b) -> calls w' = S (calls w)) ->
  forall w w' bs, mapM f l w = (w', Returned bs) ->
                  calls w' = (calls w + length l)%nat /\ length bs = length l.
Proof.
  intros H. induction l as [|a l IH]; intros w w' bs; cbn [mapM].
  - intros [= <- <-]. cbn. split; [lia | reflexivity].
  - unfold bind at 1. destruct (f a w) as [w1 [b|m]] eqn:E; [|discriminate].
    unfold bind at 1. destruct (mapM f l w1) as [w2 [bs'|m]] eqn:E';
      [|discriminate].
    intros [= <- <-]. apply H in E. apply IH in E'. cbn [length]. lia.
Qed.

(** X18. listApplications writes nothing, whoever asks and whichever call
    fails.  It answers the list with 200, or 500 with the message
    "Error retrieving applications: ...", and a list that is answered has
    cost one call to the database for the query and one more for every
    application listed. *)
Theorem listApplications_reads (failing : option nat) (tza now : Z)
    (userId userType : option string) (w : World) :
  let result := listApplications failing tza now userId userType w in
  tables (fst result) = tables w
  /\ sequences (fst result) = sequences w
  /\ ((exists items,
         snd result = Json 200 items
         /\ length items
            = length (selected (tables w) (whereClause userId userType))
         /\ calls (fst result) = (calls w + 1 + length items)%nat)
      \/ exists m,
           snd result
           = Message 500 ("Error retrieving applications: " +:+ m)).
Proof.
  cbv zeta.
  assert (R : reads (listApplications failing tza now userId userType)).
  { unfold listApplications. apply reads_handler.
    apply reads_bind; [apply reads_call; reflexivity|].
    intros l. apply reads_bind;
      [apply reads_mapM; intros a; apply reads_formatApplication|].
    intros fs. apply reads_ret. }
  destruct (R w) as [T S]. split; [exact T|]. split; [exact S|]. clear R T S.
  unfold listApplications, handler, bind.
  destruct (decide (failing = Some (calls w))) as [F|F].
  { rewrite call_fails by exact F. right. eexists. reflexivity. }
  erewrite call_runs by (try reflexivity; exact F). cbv beta iota.
  match goal with
  | |- context [mapM ?f ?l ?w0] =>
      destruct (mapM f l w0) as [w1 [fs|m]] eqn:E
  end; [|right; eexists; reflexivity].
  left. exists fs. cbn [ret fst snd].
  apply mapM_calls in E.
  - destruct E as [E1 E2]. rewrite length_map in E1, E2.
    cbn [calls] in E1. repeat split; [exact E2 | lia].
  - intros a w0 w' b. apply formatApplication_calls.
Qed.

(** *** Whose applications are listed *)

Lemma selected_tenant (t : Tables) (c : string) :
  selected t (WhereTenant c)
  = filter (fun a => Application.tenantCognitoId a = c) (applications t).
Proof.
  unfold selected. apply list_filter_iff. intros a. cbn [satisfies].
  apply String.eqb_eq.
Qed.

Lemma selected_manager (t : Tables) (c : string) :
  selected t (WhereManager c)
  = filter (fun a => Property.managerCognitoId
                       <$> find_property t (Application.propertyId a)
                     = Some c)
           (applications t).
Proof.
  unfold selected. apply list_filter_iff. intros a. cbn [satisfies].
  destruct (find_property t (Application.propertyId a)) as [p|]; cbn.
  - rewrite String.eqb_eq. split; [intros ->; reflexivity | intros [= ->]].
    reflexivity.
  - split; discriminate.
Qed.

(** X19. With a user identifier, a list that listApplications answers for
    the user type "tenant" holds the applications whose tenant is that
    identifier, and for "manager" those for a property whose manager is
    that identifier: each time all of them and no other, in the order of
    the table.  The identifier is the one of the query string; the
    handler asks for no proof of it. *)
Theorem listApplications_scoped (failing : option nat) (tza now : Z)
    (userId : string) (userType : string) (w : World)
    (items : list Formatted) :
  userId <> "" ->
  snd (listApplications failing tza now (Some userId) (Some userType) w)
  = Json 200 items ->
  (userType = "tenant" ->
   map (fun f => listed (app f)) items
   = filter (fun a => Application.tenantCognitoId a = userId)
            (applications (tables w)))
  /\ (userType = "manager" ->
      map (fun f => listed (app f)) items
      = filter (fun a => Property.managerCognitoId
                           <$> find_property (tables w)
                                 (Application.propertyId a)
                         = Some userId)
               (applications (tables w))).
Proof.
  intros U E. apply ApplicationsFacts.listApplications_returns in E.
  apply ApplicationsFacts.Forall2_listed in E.
  assert (T : param_truthy (Some userId) = true).
  { cbn. destruct (String.eqb_spec userId ""); [contradiction | reflexivity]. }
  unfold whereClause in E. rewrite T in E. cbn [param_truthy param_string] in E.
  split; intros ->; cbn in E.
  - rewrite E. apply selected_tenant.
  - rewrite E. apply selected_manager.
Qed.

Lemma listApplications_scoped_witness :
  (("tenant" : string) = "tenant" ->
   map (fun f => listed (app f)) Fixtures.eves_list
   = filter (fun a => Application.tenantCognitoId a = "ten-eve")
            (applications (tables Fixtures.sample)))
  /\ (("tenant" : string) = "manager" ->
      map (fun f => listed (app f)) Fixtures.eves_list
      = filter (fun a => Property.managerCognitoId
                           <$> find_property (tables Fixtures.sample)
                                 (Application.propertyId a)
                         = Some "ten-eve")
               (applications (tables Fixtures.sample))).
Proof.
  apply (listApplications_scoped None 0 Fixtures.noon "ten-eve" "tenant"
           Fixtures.sample Fixtures.eves_list).
  - discriminate.
  - vm_compute. reflexivity.
Defined.

(** *** Requests that name no row *)



(** *** Applying *)



End ApplicationsMore.

(** ** Facts about the creation of a property *)
Module PropertiesFacts.
Import JS Http Db Prisma Properties.
Import DbFacts.
Local Open Scope Z_scope.

Lemma coordinates_fallback (data : list GeoResult) :
  lacks_coordinates data -> coordinates data = (zero, zero).
Proof.
  destruct data as [|r data]; [reflexivity|]. cbn [lacks_coordinates coordinates].
  intros [->| ->]; rewrite ?andb_false_r; reflexivity.
Qed.

Section CreateProperty.
Variable failing : option nat.
Variable upload : Z -> File -> Outcome string.
Variable geocode : string -> string -> string -> string -> Outcome (list GeoResult).
Variable prisma_refuses : Property.t -> option string.
Variable now : Z.
Variables (files : list File) (body : Body) (w : World).

Lemma createProperty_written :
  written upload geocode now files body w
    (createProperty failing upload geocode prisma_refuses now files body w).
Proof.
  unfold createProperty, handler, bind, lift.
  destruct (uploads upload now files) as [urls|m] eqn:U;
    [|eapply WroteNothing; reflexivity].
  destruct (geocode _ _ _ _) as [data|m] eqn:G;
    [|eapply WroteNothing; reflexivity].
  unfold call at 1. destruct (bool_decide _);
    [eapply WroteNothing; reflexivity|].
  cbn [location_insert tables sequences calls].
  unfold call. cbn [tables sequences calls].
  destruct (bool_decide _);
    [eapply WroteLocation; [exact G | reflexivity | reflexivity]|].
  unfold property_create. cbn [Location.id nextPropertyId take_locationId].
  destruct (prisma_refuses _);
    [eapply WroteLocation; [exact G | reflexivity | reflexivity]|].
  destruct (find_manager _ _);
    [|eapply WroteLocation; [exact G | reflexivity | reflexivity]].
  destruct (find_location _ _);
    [|eapply WroteLocation; [exact G | reflexivity | reflexivity]].
  eapply WroteProperty; [exact U | exact G | reflexivity | reflexivity
                         | reflexivity].
Qed.
End CreateProperty.


Lemma property_create_inserts prisma_refuses body urls k l m t s :
  prisma_refuses (propertyRow (nextPropertyId s) body urls k) = None ->
  find_manager t (managerCognitoId body) = Some m ->
  find_location t k = Some l ->
  property_create prisma_refuses body urls k t s
  = (set_properties t
       (properties t ++ [propertyRow (nextPropertyId s) body urls k]),
     take_propertyId s,
     Returned (mkCreated (propertyRow (nextPropertyId s) body urls k)
                         (Some l) (Some m))).
Proof.
  intros H1 H2 H3. unfold property_create. rewrite H1, H2, H3. reflexivity.
Qed.





End PropertiesFacts.

(** ** More facts about the creation of a property *)
Module PropertiesMore.
Import JS Http Db Prisma Properties Invariant.
Import DbFacts DbMore InvariantFacts.
Local Open Scope Z_scope.

Section Uploads.
Variable upload : Z -> File -> Outcome string.
Variable now : Z.

Lemma uploads_Returned (files : list File) (urls : list string) :
  uploads upload now files = Returned urls
  <-> Forall2 (fun f u => upload now f = Returned u) files urls.
Proof.
  revert urls. induction files as [|f files IH]; intros urls; cbn [uploads].
  - split.
    + intros [= <-]. constructor.
    + intros H. inversion H. reflexivity.
  - split.
    + destruct (upload now f) as [u|m] eqn:U; [|discriminate].
      destruct (uploads upload now files) as [us|m]; [|discriminate].
      intros [= <-]. constructor; [exact U | apply IH; reflexivity].
    + intros H. inversion H as [|? u ? us U T]; subst. rewrite U.
      apply IH in T. rewrite T. reflexivity.
Qed.

Lemma uploads_Threw (files : list File) (m : string) :
  uploads upload now files = Threw m ->
  exists f, In f files /\ upload now f = Threw m.
Proof.
  induction files as [|f files IH]; cbn [uploads]; [discriminate|].
  destruct (upload now f) as [u|m'] eqn:U.
  - destruct (uploads upload now files) as [us|m'']; [discriminate|].
    intros [= <-]. destruct (IH eq_refl) as (g & Hg & E).
    exists g. split; [right; exact Hg | exact E].
  - intros [= <-]. exists f. split; [left; reflexivity | exact U].
Qed.
End Uploads.

Section CreateProperty.
Variable failing : option nat.
Variable upload : Z -> File -> Outcome string.
Variable geocode : string -> string -> string -> string -> Outcome (list GeoResult).
Variable prisma_refuses : Property.t -> option string.
Variable now : Z.
Variables (files : list File) (body : Body) (w : World).

(** What a 201 tells about the run. *)
Lemma answered_201_inversion (w1 : World) (created : Created) :
  createProperty failing upload geocode prisma_refuses now files body w
  = (w1, Json 201 created) ->
  exists urls data m,
    uploads upload now files = Returned urls
    /\ geocode (address body) (city body) (country body) (postalCode body)
       = Returned data
    /\ find_manager (tables w) (managerCognitoId body) = Some m
    /\ prisma_refuses
         (propertyRow (nextPropertyId (sequences w)) body urls
                      (nextLocationId (sequences w))) = None
    /\ created
       = mkCreated (propertyRow (nextPropertyId (sequences w)) body urls
                                (nextLocationId (sequences w)))
           (find_location
              (set_locations (tables w)
                 (locations (tables w)
                  ++ [inserted_location body w (coordinates data)]))
              (nextLocationId (sequences w)))
           (Some m)
    /\ tables w1
       = set_properties
           (set_locations (tables w)
              (locations (tables w)
               ++ [inserted_location body w (coordinates data)]))
           (properties (tables w)
            ++ [propertyRow (nextPropertyId (sequences w)) body urls
                            (nextLocationId (sequences w))]).
Proof.
  unfold createProperty, handler, bind, lift.
  destruct (uploads upload now files) as [urls|m] eqn:U; [|discriminate].
  destruct (geocode _ _ _ _) as [data|m] eqn:G; [|discriminate].
  unfold call at 1. destruct (bool_decide _); [discriminate|].
  cbn [location_insert tables sequences calls].
  unfold call. cbn [tables sequences calls].
  destruct (bool_decide _); [discriminate|].
  unfold property_create. cbn [Location.id nextPropertyId take_locationId].
  destruct (prisma_refuses _) eqn:R; [discriminate|].
  destruct (find_manager _ _) as [m|] eqn:M; [|discriminate].
  destruct (find_location _ _) as [l|] eqn:L; [|discriminate].
  intros [= <- <-].
  exists urls, data, m. unfold inserted_location.
  repeat split; try reflexivity; try assumption. rewrite L. reflexivity.
Qed.
End CreateProperty.

(** X14. When an upload of a file or the geocoding service fails,
    createProperty answers 500 with the message of that failure and has
    not touched the database: no call was made to it. *)
Theorem createProperty_external_failure (failing : option nat)
    (upload : Z -> File -> Outcome string)
    (geocode : string -> string -> string -> string -> Outcome (list GeoResult))
    (prisma_refuses : Property.t -> option string) (now : Z)
    (files : list File) (body : Body) (w : World) (m : string) :
  uploads upload now files = Threw m
  \/ ((exists urls, uploads upload now files = Returned urls)
      /\ geocode (address body) (city body) (country body) (postalCode body)
         = Threw m) ->
  createProperty failing upload geocode prisma_refuses now files body w
  = (w, Message 500 ("Error creating property: " +:+ m))
  /\ (uploads upload now files = Threw m ->
      exists f, In f files /\ upload now f = Threw m).
Proof.
  intros H. split; [|apply uploads_Threw].
  unfold createProperty, handler, bind, lift.
  destruct H as [->|[[urls ->] ->]]; reflexivity.
Qed.

Lemma createProperty_external_failure_witness :
  createProperty None (fun _ _ => Threw "AccessDenied") Fixtures.nowhere
    Fixtures.refuse_nan Fixtures.noon [Fixtures.photo] Fixtures.form
    Fixtures.sample
  = (Fixtures.sample, Message 500 ("Error creating property: " +:+ "AccessDenied"))
  /\ (uploads (fun _ _ => Threw "AccessDenied") Fixtures.noon [Fixtures.photo]
      = Threw "AccessDenied" ->
      exists f, In f [Fixtures.photo]
                /\ (fun _ _ => Threw "AccessDenied") Fixtures.noon f
                   = @Threw string "AccessDenied").
Proof.
  apply (createProperty_external_failure None (fun _ _ => Threw "AccessDenied")
           Fixtures.nowhere Fixtures.refuse_nan Fixtures.noon
           [Fixtures.photo] Fixtures.form Fixtures.sample "AccessDenied").
  left. reflexivity.
Defined.

(** X15. A property that createProperty answers with 201 has, in a
    consistent database, a fresh identifier, one photo URL for each file,
    in the order of the files, and the location inserted by this request:
    the address of the form with the coordinates read from the answer of
    the geocoding service.  The property and the location are the last
    rows of their tables. *)
Theorem createProperty_created (failing : option nat)
    (upload : Z -> File -> Outcome string)
    (geocode : string -> string -> string -> string -> Outcome (list GeoResult))
    (prisma_refuses : Property.t -> option string) (now : Z)
    (files : list File) (body : Body) (w : World) (created : Created) :
  consistent (tables w) (sequences w) = true ->
  let result :=
    createProperty failing upload geocode prisma_refuses now files body w in
  snd result = Json 201 created ->
  Forall2 (fun f u => upload now f = Returned u) files
          (Property.photoUrls (property created))
  /\ (forall p, In p (properties (tables w)) ->
                Property.id p <> Property.id (property created))
  /\ exists data l,
       geocode (address body) (city body) (country body) (postalCode body)
       = Returned data
       /\ l = Location.mk (nextLocationId (sequences w)) (address body)
                (city body) (state body) (country body) (postalCode body)
                (coordinates data)
       /\ location created = Some l
       /\ Property.locationId (property created) = Location.id l
       /\ locations (tables (fst result)) = locations (tables w) ++ [l]
       /\ properties (tables (fst result))
          = properties (tables w) ++ [property created].
Proof.
  intros C. cbv zeta. intros E. apply consistent_iff in C.
  destruct (createProperty _ _ _ _ _ _ _ _) as [w1 r] eqn:Run.
  cbn [fst snd] in *. subst r.
  destruct (answered_201_inversion _ _ _ _ _ _ _ _ _ _ Run)
    as (urls & data & m & U & G & M & R & -> & T).
  cbn [property location]. split; [|split].
  - apply uploads_Returned. exact U.
  - intros p Hp. pose proof (property_ids _ _ C p Hp). cbn. lia.
  - exists data, (inserted_location body w (coordinates data)).
    split; [exact G|]. split; [reflexivity|]. split.
    + apply (find_appended Location.id (locations (tables w))
               (inserted_location body w (coordinates data))).
      intros l Hl. apply (location_ids _ _ C l Hl).
    + rewrite T. repeat split.
Qed.

Lemma createProperty_created_witness :
  let created :=
    mkCreated (propertyRow 2 Fixtures.form
                 ["https://bucket.example.org/properties/front.jpg"] 2)
      (Some (Location.mk 2 "2 Oak Avenue" "Springfield" "IL" "USA" "62702"
                         (zero, zero)))
      (Some Fixtures.ann) in
  let result :=
    createProperty None Fixtures.store Fixtures.nowhere Fixtures.refuse_nan
      Fixtures.noon [Fixtures.photo] Fixtures.form Fixtures.sample in
  Forall2 (fun f u => Fixtures.store Fixtures.noon f = Returned u)
          [Fixtures.photo] (Property.photoUrls (property created))
  /\ (forall p, In p (properties (tables Fixtures.sample)) ->
                Property.id p <> Property.id (property created))
  /\ exists data l,
       Fixtures.nowhere "2 Oak Avenue" "Springfield" "USA" "62702"
       = Returned data
       /\ l = Location.mk 2 "2 Oak Avenue" "Springfield" "IL" "USA" "62702"
                (coordinates data)
       /\ location created = Some l
       /\ Property.locationId (property created) = Location.id l
       /\ locations (tables (fst result))
          = locations (tables Fixtures.sample) ++ [l]
       /\ properties (tables (fst result))
          = properties (tables Fixtures.sample) ++ [property created].
Proof.
  apply (createProperty_created None Fixtures.store Fixtures.nowhere
           Fixtures.refuse_nan Fixtures.noon [Fixtures.photo]
           Fixtures.form Fixtures.sample).
  - reflexivity.
  - vm_compute. reflexivity.
Defined.

(** X16. createProperty is not atomic.  When the uploads and the geocoding
    succeeded and the location was inserted, and then the creation of the
    property fails (the call fails, the ORM refuses the row, or the form
    names a manager that does not exist), the request is answered 500 and
    the location stays in its table: in a consistent database it is a
    location that no property refers to. *)
Theorem createProperty_orphan_location (failing : option nat)
    (upload : Z -> File -> Outcome string)
    (geocode : string -> string -> string -> string -> Outcome (list GeoResult))
    (prisma_refuses : Property.t -> option string) (now : Z)
    (files : list File) (body : Body) (w : World)
    (urls : list string) (data : list GeoResult) :
  consistent (tables w) (sequences w) = true ->
  uploads upload now files = Returned urls ->
  geocode (address body) (city body) (country body) (postalCode body)
  = Returned data ->
  failing <> Some (calls w) ->
  failing = Some (S (calls w))
  \/ is_Some (prisma_refuses
                (propertyRow (nextPropertyId (sequences w)) body urls
                             (nextLocationId (sequences w))))
  \/ find_manager (tables w) (managerCognitoId body) = None ->
  let result :=
    createProperty failing upload geocode prisma_refuses now files body w in
  let l := inserted_location body w (coordinates data) in
  (exists m, snd result = Message 500 ("Error creating property: " +:+ m))
  /\ tables (fst result)
     = set_locations (tables w) (locations (tables w) ++ [l])
  /\ forall p, In p (properties (tables (fst result))) ->
               Property.locationId p <> Location.id l.
Proof.
  intros C U G F0 H. cbv zeta. apply consistent_iff in C.
  assert (O : forall p, In p (properties (tables w)) ->
                        Property.locationId p
                        <> nextLocationId (sequences w)).
  { intros p Hp. destruct (property_refs _ _ C p Hp) as [l Hl].
    apply List.find_some in Hl. destruct Hl as [Hl E].
    pose proof (location_ids _ _ C l Hl). lia. }
  unfold createProperty, handler, bind, lift. rewrite U, G.
  erewrite call_runs by (try reflexivity; exact F0).
  cbn [tables sequences calls Location.id].
  destruct (decide (failing = Some (S (calls w)))) as [F1|F1].
  { rewrite call_fails by exact F1. cbn [fst snd tables].
    split; [eexists; reflexivity|]. split; [reflexivity | exact O]. }
  unfold call. cbn [tables sequences calls].
  destruct (bool_decide_reflect (failing = Some (S (calls w))));
    [contradiction|].
  unfold property_create. cbn [nextPropertyId take_locationId].
  destruct H as [H|[[m H]|H]]; [contradiction | rewrite H | ].
  - cbn [fst snd tables].
    split; [eexists; reflexivity|]. split; [reflexivity | exact O].
  - destruct (prisma_refuses _);
      [cbn [fst snd tables];
       split; [eexists; reflexivity|]; split; [reflexivity | exact O]|].
    replace (find_manager _ (managerCognitoId body)) with (@None Manager.t)
      by (symmetry; exact H).
    cbn [fst snd tables].
    split; [eexists; reflexivity|]. split; [reflexivity | exact O].
Qed.

Lemma createProperty_orphan_location_witness :
  let result :=
    createProperty (Some 1%nat) Fixtures.store Fixtures.nowhere Fixtures.refuse_nan
      Fixtures.noon [Fixtures.photo] Fixtures.form Fixtures.sample in
  let l := inserted_location Fixtures.form Fixtures.sample (coordinates []) in
  (exists m, snd result = Message 500 ("Error creating property: " +:+ m))
  /\ tables (fst result)
     = set_locations (tables Fixtures.sample)
         (locations (tables Fixtures.sample) ++ [l])
  /\ forall p, In p (properties (tables (fst result))) ->
               Property.locationId p <> Location.id l.
Proof.
  apply (createProperty_orphan_location (Some 1%nat) Fixtures.store
           Fixtures.nowhere Fixtures.refuse_nan Fixtures.noon
           [Fixtures.photo] Fixtures.form Fixtures.sample
           ["https://bucket.example.org/properties/front.jpg"] []).
  - reflexivity.
  - reflexivity.
  - reflexivity.
  - discriminate.
  - left. reflexivity.
Defined.

End PropertiesMore.

(** ** Facts about reading one property *)
Module PropertyLookupFacts.
Import JS Http Db Prisma PropertyLookup Invariant.
Import DbFacts DbMore InvariantFacts.
Local Open Scope Z_scope.


(** X17. A property that createProperty has answered with 201 can be read
    back: in a consistent database, with no failing call and a reader of
    well-known text that returns the point it is given, getProperty asked
    for the new identifier answers 200 with the created property, its
    location and the coordinates the geocoding gave. *)
Theorem getProperty_after_createProperty (failing : option nat)
    (upload : Z -> Properties.File -> Outcome string)
    (geocode : string -> string -> string -> string
               -> Outcome (list Properties.GeoResult))
    (prisma_refuses : Property.t -> option string) (now : Z)
    (files : list Properties.File) (body : Properties.Body) (w : World)
    (created : Properties.Created)
    (ST_asText : num * num -> string)
    (wktToGeoJSON : string -> Outcome (list num)) (id : string) :
  consistent (tables w) (sequences w) = true ->
  let result :=
    Properties.createProperty failing upload geocode prisma_refuses now
      files body w in
  snd result = Json 201 created ->
  num_int (Number id) = Some (Property.id (Properties.property created)) ->
  (forall l, Properties.location created = Some l ->
             wktToGeoJSON (ST_asText (Location.coordinates l))
             = Returned [fst (Location.coordinates l);
                         snd (Location.coordinates l)]) ->
  exists l,
    Properties.location created = Some l
    /\ snd (getProperty None ST_asText wktToGeoJSON id (fst result))
       = Some (Json 200
                 (mkFound (Properties.property created) l
                    (Some (fst (Location.coordinates l)))
                    (Some (snd (Location.coordinates l))))).
Proof.
  intros C. cbv zeta. intros E Hid Hwkt. apply consistent_iff in C.
  destruct (Properties.createProperty _ _ _ _ _ _ _ _) as [w1 r] eqn:Run.
  cbn [fst snd] in *. subst r.
  destruct (PropertiesMore.answered_201_inversion _ _ _ _ _ _ _ _ _ _ Run)
    as (urls & data & m & U & G & M & R & -> & T).
  cbn [Properties.property Properties.location] in *.
  set (l := Properties.inserted_location body w (Properties.coordinates data))
    in *.
  set (p := Properties.propertyRow _ _ _ _) in *.
  assert (FL : find_location (tables w1) (Property.locationId p) = Some l).
  { rewrite T.
    apply (find_appended Location.id (locations (tables w)) l).
    intros x Hx. apply (location_ids _ _ C x Hx). }
  assert (FP : find_property (tables w1) (Property.id p) = Some p).
  { rewrite T.
    apply (find_appended Property.id (properties (tables w)) p).
    intros x Hx. apply (property_ids _ _ C x Hx). }
  assert (LT : List.filter (fun x => Location.id x =? Location.id l)
                           (locations (tables w1)) = [l]).
  { rewrite T.
    apply (filter_appended Location.id (locations (tables w)) l).
    intros x Hx. apply (location_ids _ _ C x Hx). }
  replace (find_location _ (nextLocationId (sequences w))) with (Some l)
    in * by (symmetry; rewrite T in FL; exact FL).
  exists l. split; [reflexivity|].
  unfold getProperty, bind, property_findUnique_location. rewrite Hid.
  erewrite call_runs by (try reflexivity; discriminate).
  rewrite FP. cbn [option_map]. rewrite FL.
  erewrite call_runs by (try reflexivity; discriminate).
  unfold lift. cbn [tables]. rewrite LT. cbn [map first_text].
  rewrite (Hwkt l eq_refl). reflexivity.
Qed.

Lemma getProperty_after_createProperty_witness :
  let result :=
    Properties.createProperty None Fixtures.store Fixtures.nowhere
      Fixtures.refuse_nan Fixtures.noon [Fixtures.photo] Fixtures.form
      Fixtures.sample in
  let created :=
    Properties.mkCreated
      (Properties.propertyRow 2 Fixtures.form
         ["https://bucket.example.org/properties/front.jpg"] 2)
      (Some (Location.mk 2 "2 Oak Avenue" "Springfield" "IL" "USA" "62702"
                         (zero, zero)))
      (Some Fixtures.ann) in
  exists l,
    Properties.location created = Some l
    /\ snd (getProperty None (fun _ => "POINT(0 0)")
              (fun _ => Returned [zero; zero]) "2" (fst result))
       = Some (Json 200
                 (mkFound (Properties.property created) l
                    (Some (fst (Location.coordinates l)))
                    (Some (snd (Location.coordinates l))))).
Proof.
  apply (getProperty_after_createProperty None Fixtures.store
           Fixtures.nowhere Fixtures.refuse_nan Fixtures.noon
           [Fixtures.photo] Fixtures.form Fixtures.sample).
  - reflexivity.
  - vm_compute. reflexivity.
  - vm_compute. reflexivity.
  - intros l [= <-]. reflexivity.
Defined.

End PropertyLookupFacts.

(** ** Facts about the routers *)
Module RoutesFacts.
Import JS Http Db Prisma Routes.

(** X7. In the routers of the managers and of the tenants the handler
    that updates a profile is registered for GET on the path of the
    handler that reads it, after it: the first handler of every request is
    the reading or the creating one, never the updating one, and a PUT or
    PATCH request matches no route. *)
Theorem update_routes_shadowed (m : Method) (segments : list string) :
  (head (chain managerRoutes m segments) = None
   \/ head (chain managerRoutes m segments) = Some getManager
   \/ head (chain managerRoutes m segments) = Some createManager)
  /\ (head (chain tenantRoutes m segments) = None
      \/ head (chain tenantRoutes m segments) = Some getTenant
      \/ head (chain tenantRoutes m segments) = Some createTenant)
  /\ (In updateManager (chain managerRoutes m segments) ->
      chain managerRoutes m segments = [getManager; updateManager])
  /\ (In updateTenant (chain tenantRoutes m segments) ->
      chain tenantRoutes m segments = [getTenant; updateTenant])
  /\ chain managerRoutes PUT segments = []
  /\ chain managerRoutes PATCH segments = []
  /\ chain tenantRoutes PUT segments = []
  /\ chain tenantRoutes PATCH segments = [].
Proof.
  destruct segments as [|s [|s' l]]; destruct m; cbn;
    try destruct (String.eqb s ""); cbn;
    repeat split; auto; intros H; try reflexivity;
    repeat (destruct H as [H|H]; try discriminate H); try contradiction.
Qed.

(** X8. [POST /] of the property router reaches createProperty only with
    a bearer token whose role, lower-cased, is "manager"; any other request
    is answered 401, 400 or 403 and leaves the database as it was. *)
Theorem postProperty_guarded (jwt_decode : string -> Auth.Decoded)
    (failing : option nat) (upload : Z -> Properties.File -> Outcome string)
    (geocode : string -> string -> string -> string
               -> Outcome (list Properties.GeoResult))
    (prisma_refuses : Property.t -> option string) (now : Z)
    (authorization : option string) (files : list Properties.File)
    (body : Properties.Body) (w : World) :
  let result :=
    postProperty jwt_decode failing upload geocode prisma_refuses now
                 authorization files body w in
  (exists token role,
     Auth.bearerToken authorization = Some token
     /\ Auth.role_claim (jwt_decode token) = Some role
     /\ toLowerCase role = "manager"
     /\ result = Properties.createProperty failing upload geocode
                   prisma_refuses now files body w)
  \/ (fst result = w
      /\ (snd result = Message 401 "Unauthorized"
          \/ snd result = Message 400 "Invalid token"
          \/ snd result = Message 403 "Forbidden")).
Proof.
  cbv zeta. unfold postProperty.
  destruct (Auth.bearerToken authorization) as [token|] eqn:T.
  2:{ rewrite AuthMore.authMiddleware_no_token by auto. right. auto. }
  destruct (String.eqb_spec token "") as [->|Hne].
  { rewrite AuthMore.authMiddleware_no_token by auto. right. auto. }
  destruct (Auth.role_claim (jwt_decode token)) as [role|] eqn:R.
  - rewrite (AuthMore.authMiddleware_outcome _ _ _ token role) by auto.
    cbn [Auth.outcome].
    destruct (bool_decide_reflect (toLowerCase role ∈ ["manager"])) as [I|_].
    + left. exists token, role. apply list_elem_of_singleton in I. auto.
    + right. auto.
  - rewrite (AuthMore.authMiddleware_unreadable _ _ _ token) by auto.
    right. auto.
Qed.

End RoutesFacts.

